(** * Local geometric features of a 3D point cloud (src/pgeof.cpp)

    A shallow embedding of [neighborhood_pca] and
    [compute_geometric_features].

    Conventions of the embedding.
    - Machine integers are [Z] with their conversions written out for an
      LP64 target: [int] is 32-bit two's complement, [uint32_t] is 32-bit
      unsigned and [std::size_t] is 64-bit unsigned.
    - [float] (and the [double] intermediates of the feature formulas) are
      idealised as real numbers: rounding, infinities and NaN are outside
      the model.  [log], [sqrtf], [sqrt] and [powf] are [ln], [sqrt] and
      [Rpower].  One NaN matters to the control flow: the result of an
      empty neighbourhood (0/0 at line 49), which the search can evaluate
      and compare; it is tracked by [not_a_number].
    - The raw pointers [xyz], [nn], [nn_ptr] and [features] are four
      separate buffers, each a total map from an index to its content.
    - [Eigen::EigenSolver] is external to the repository: the kernel is
      parametrised by it.
    - The OpenMP loop is run point after point. *)

From Stdlib Require Import Reals Lra Lia ZArith List Bool Sorted.
Import ListNotations.

(** ** Machine integers *)

Module Cxx.
Open Scope Z_scope.

Definition to_uint32 (z : Z) : Z := z mod 2 ^ 32.
Definition to_size_t (z : Z) : Z := z mod 2 ^ 64.
(** [int(x)]: reduction modulo 2^32 into the signed range. *)
Definition to_int (z : Z) : Z := (z + 2 ^ 31) mod 2 ^ 32 - 2 ^ 31.

Definition int_range (z : Z) : Prop := - 2 ^ 31 <= z < 2 ^ 31.

(** The values taken by [for (k = lo; k < hi; k++)]. *)
Definition range (lo hi : Z) : list Z :=
  map (fun n => lo + Z.of_nat n) (seq 0 (Z.to_nat (hi - lo))).
End Cxx.
Import Cxx.

(** ** Numbers and small vectors *)

Abbreviation float := R.

Definition fltb (a b : float) : bool := if Rlt_dec a b then true else false.
Definition fgtb (a b : float) : bool := fltb b a.

(** [std::max(a, b)] is [(a < b) ? b : a]. *)
Definition std_max (a b : float) : float := if fltb a b then b else a.

(** A [std::vector<float>] of three elements, or an Eigen column. *)
Record Vector3f : Type := vec3 { c0 : float; c1 : float; c2 : float }.

Definition at3 (v : Vector3f) (i : Z) : float :=
  if (i =? 0)%Z then c0 v else if (i =? 1)%Z then c1 v else c2 v.

Definition Matrix3f : Type := Z -> Z -> float.

(** What the kernel reads of an [Eigen::EigenSolver<Matrix3f>]: the real
    parts of the eigenvalues and of the columns of the eigenvector matrix. *)
Record EigenSolver : Type := {
  eigenvalues : Vector3f;
  eigenvectors_col : Z -> Vector3f
}.

Record PCAOutput : Type := {
  val : Vector3f;
  v0 : Vector3f;
  v1 : Vector3f;
  v2 : Vector3f;
  eigenentropy : float
}.

(** ** [std::sort] on a short range

    For ranges of at most sixteen elements libstdc++'s [std::sort] is
    [std::__insertion_sort]: an element that compares before the first
    one is moved to the front, any other is shifted left past the elements
    it compares before. *)

Section Sort.
Context {A : Type} (comp : A -> A -> bool).

(** [std::__unguarded_linear_insert]: [rpre] is the sorted prefix read
    from its right end, [post] the elements already shifted right. *)
Fixpoint unguarded_linear_insert (v : A) (rpre post : list A) : list A :=
  match rpre with
  | [] => v :: post
  | y :: rpre' =>
      if comp v y then unguarded_linear_insert v rpre' (y :: post)
      else rev_append rpre (v :: post)
  end.

(** One round of [std::__insertion_sort]. *)
Definition insertion_step (sorted : list A) (v : A) : list A :=
  match sorted with
  | [] => [v]
  | first :: _ =>
      if comp v first then v :: sorted
      else unguarded_linear_insert v (rev sorted) []
  end.

Definition std_sort (l : list A) : list A := fold_left insertion_step l [].
End Sort.

(** ** LocalPCA: [neighborhood_pca] *)

Open Scope R_scope.

Definition epsilon : float := 0.001.

(** Lines 111-117: the eigenentropy of three clamped eigenvalues. *)
Definition eigenentropy_of (val : Vector3f) : float :=
  let val_sum := c0 val + c1 val + c2 val + epsilon in
  let e0 := c0 val / val_sum in
  let e1 := c1 val / val_sum in
  let e2 := c2 val / val_sum in
  - e0 * ln (e0 + epsilon) - e1 * ln (e1 + epsilon) - e2 * ln (e2 + epsilon).

(** Lines 88-107: express an eigenvector in the Z+ half-space. *)
Definition orient (v : Vector3f) : Vector3f :=
  if fltb (c2 v) 0 then vec3 (- c0 v) (- c1 v) (- c2 v) else v.

Definition colwise_sum (f : Vector3f -> float) (m : list Vector3f) : float :=
  fold_right (fun r acc => f r + acc) 0 m.

Definition colwise_mean (m : list Vector3f) : Vector3f :=
  let n := IZR (Z.of_nat (length m)) in
  vec3 (colwise_sum c0 m / n) (colwise_sum c1 m / n) (colwise_sum c2 m / n).

Definition rowwise_sub (m : list Vector3f) (u : Vector3f) : list Vector3f :=
  map (fun r => vec3 (c0 r - c0 u) (c1 r - c1 u) (c2 r - c2 u)) m.

(** Lines 59-68: the indices 0, 1, 2 sorted by decreasing eigenvalue. *)
Definition indices (ev : Vector3f) : list Z :=
  std_sort (fun i1 i2 => fgtb (at3 ev i1) (at3 ev i2)) [0; 1; 2]%Z.

Section Kernel.
(** The eigendecomposition of a 3x3 matrix, from the Eigen library. *)
Variable eigen_solve : Matrix3f -> EigenSolver.

Section Buffers.
Variables (xyz : Z -> float) (nn nn_ptr : Z -> Z).

(** Lines 35-44: the coordinates of the first [k_nn] neighbours. *)
Definition cloud (i_point k_nn : Z) : list Vector3f :=
  map (fun i_nei =>
         let idx_nei := nn (nn_ptr i_point + i_nei)%Z in
         vec3 (xyz (3 * idx_nei)%Z)
              (xyz (3 * idx_nei + 1)%Z)
              (xyz (3 * idx_nei + 2)%Z))
      (range 0 k_nn).

(** Lines 47-49, for [k_nn >= 1]; with [k_nn = 0] the code computes 0/0
    (see [not_a_number]). *)
Definition cov (i_point k_nn : Z) : Matrix3f :=
  let cl := cloud i_point k_nn in
  let centered_cloud := rowwise_sub cl (colwise_mean cl) in
  fun a b =>
    colwise_sum (fun r => at3 r a * at3 r b) centered_cloud / IZR k_nn.

Definition neighborhood_pca (i_point k_nn : Z) : PCAOutput :=
  let es := eigen_solve (cov i_point k_nn) in
  let ev := eigenvalues es in
  let ix (j : nat) := nth j (indices ev) 0%Z in
  let val := vec3 (std_max (at3 ev (ix 0%nat)) 0)
                  (std_max (at3 ev (ix 1%nat)) 0)
                  (std_max (at3 ev (ix 2%nat)) 0) in
  let v0 := orient (eigenvectors_col es (ix 0%nat)) in
  let v1 := orient (eigenvectors_col es (ix 1%nat)) in
  let v2 := orient (eigenvectors_col es (ix 2%nat)) in
  {| val := val; v0 := v0; v1 := v1; v2 := v2;
     eigenentropy := eigenentropy_of val |}.
End Buffers.
End Kernel.


(** ** The per-point state of [compute_geometric_features] *)

(** What is sent to [std::cout]. *)
Inductive Output : Type :=
| Done (value : Z)   (* [value] followed by "% done" *)
| Endl.

(** The four buffers, the progress counter and the diagnostic stream;
    [pca_calls] is instrumentation: it records every call
    [neighborhood_pca(.., i_point, k)] as [(i_point, k)]. *)
Record State : Type := {
  xyz : Z -> float;
  nn : Z -> Z;
  nn_ptr : Z -> Z;
  features : Z -> float;
  s_point : Z;
  cout : list Output;
  pca_calls : list (Z * Z)
}.

(** [buf[a] = v]. *)
Definition store (a : Z) (v : float) (buf : Z -> float) : Z -> float :=
  fun j => if (j =? a)%Z then v else buf j.

(** Consecutive stores [buf[base] = v_0; buf[base + 1] = v_1; ...]. *)
Fixpoint populate (base : Z) (vs : list float) (buf : Z -> float)
  : Z -> float :=
  match vs with
  | [] => buf
  | v :: vs' => populate (base + 1)%Z vs' (store base v buf)
  end.

(** ** FeatureDeriver (lines 197-232) *)

Definition unary_vector (pca : PCAOutput) : Vector3f :=
  let val := val pca in
  let v0 := v0 pca in
  let v1 := v1 pca in
  let v2 := v2 pca in
  vec3 (c0 val * Rabs (c0 v0) + c1 val * Rabs (c0 v1) + c2 val * Rabs (c0 v2))
       (c0 val * Rabs (c1 v0) + c1 val * Rabs (c1 v1) + c2 val * Rabs (c1 v2))
       (c0 val * Rabs (c2 v0) + c1 val * Rabs (c2 v1) + c2 val * Rabs (c2 v2)).

Definition verticality_of (pca : PCAOutput) : float :=
  let val0 := sqrt (c0 (val pca)) in
  if fltb 0 val0 then
    let u := unary_vector pca in
    let norm := sqrt (c0 u * c0 u + c1 u * c1 u + c2 u * c2 u) in
    c2 u / norm
  else 0.

(** The eleven values in the order in which they are stored. *)
Definition geometric_features (pca : PCAOutput) : list float :=
  let val := val pca in
  let v2 := v2 pca in
  let val0 := sqrt (c0 val) in
  let val1 := sqrt (c1 val) in
  let val2 := sqrt (c2 val) in
  let linearity := (val0 - val1) / (val0 + 1e-3) in
  let planarity := (val1 - val2) / (val0 + 1e-3) in
  let scattering := val2 / (val0 + 1e-3) in
  let length := val0 in
  let surface := sqrt (val0 * val1 + 1e-6) in
  let volume := Rpower (val0 * val1 * val2 + 1e-9) (1 / 3) in
  let curvature := val2 / (val0 + val1 + val2 + 1e-3) in
  let verticality := verticality_of pca in
  [linearity; planarity; scattering; verticality;
   c0 v2; c1 v2; c2 v2; length; surface; volume; curvature].

(** ** Empty neighbourhoods

    Line 49 divides by [float(k_nn)].  For [k_nn = 0] the quotient is 0/0:
    the covariance, the eigenvalues and the eigenentropy of the result are
    not numbers, and a value derived from them has no counterpart among
    the real numbers of the model.  [not_a_number k_nn] tells that the
    fields of [neighborhood_pca .. k_nn] stand for such values: a
    comparison with them is false (see [improves]), and what is proved of
    the numbers of a result is to be read for a neighbourhood of at least
    one point. *)
Definition not_a_number (k_nn : Z) : bool := (k_nn =? 0)%Z.

(** ** AdaptiveNeighborhoodSearch (lines 156-195) *)

(** [incumbent] is [(pca, k_optimal)], [None] while [pca] is still the
    default-constructed object; [evaluated] lists the sizes at which
    [neighborhood_pca] has been called. *)
Record Search : Type := {
  incumbent : option (PCAOutput * Z);
  evaluated : list Z
}.

Section Point.
Variable eigen_solve : Matrix3f -> EigenSolver.
Variables (k_min k_step k_min_search n_points : Z) (verbose : bool).

Open Scope Z_scope.

(** Line 136: unsigned 32-bit subtraction, widened to [std::size_t]. *)
Definition neighbor_count (st : State) (i_point : Z) : Z :=
  to_size_t (to_uint32 (nn_ptr st (i_point + 1) - nn_ptr st i_point)).

(** Line 140: [k_nn < k_min or k_nn <= 0], compared as [std::size_t]. *)
Definition degenerate (k_nn : Z) : bool :=
  (k_nn <? to_size_t k_min) || (k_nn <=? 0).

(** Line 172. *)
Definition search_start (k_nn : Z) : Z :=
  to_size_t (Z.min (Z.max k_min k_min_search) (to_int k_nn)).

(** Line 178: the sizes skipped by [continue]. *)
Definition skipped (k0 k_nn k : Z) : bool :=
  (k0 <? k) && negb (k mod to_size_t k_step =? 0) && negb (k =? k_nn).

(** Line 188.  The comparison is only reached with an incumbent: on the
    first iteration [k == k0] short-circuits it.  A result computed for an
    empty neighbourhood is not a number, and [<] is false on it. *)
Definition improves (k0 k : Z) (pca_k : PCAOutput) (s : Search) : bool :=
  (k =? k0) ||
  match incumbent s with
  | Some (pca, k_optimal) =>
      negb (not_a_number k) && negb (not_a_number k_optimal)
      && fltb (eigenentropy pca_k) (eigenentropy pca)
  | None => false
  end.

(** One iteration of the loop of line 174. *)
Definition search_body (st : State) (i_point k0 k_nn : Z)
  (s : Search) (k : Z) : Search :=
  if skipped k0 k_nn k then s
  else
    let pca_k :=
      neighborhood_pca eigen_solve (xyz st) (nn st) (nn_ptr st) i_point k in
    {| incumbent := if improves k0 k pca_k s then Some (pca_k, k)
                    else incumbent s;
       evaluated := evaluated s ++ [k] |}.

Definition search (st : State) (i_point k_nn : Z) : Search :=
  if k_step <? 1 then
    {| incumbent :=
         Some (neighborhood_pca eigen_solve (xyz st) (nn st) (nn_ptr st)
                 i_point k_nn, k_nn);
       evaluated := [k_nn] |}
  else
    let k0 := search_start k_nn in
    fold_left (search_body st i_point k0 k_nn) (range k0 (k_nn + 1))
      {| incumbent := None; evaluated := [] |}.

(** Lines 142-153. *)
Definition zero_fill (i_point : Z) (st : State) : State :=
  {| xyz := xyz st; nn := nn st; nn_ptr := nn_ptr st;
     features := populate (i_point * 11 + 0) (repeat 0%R 11) (features st);
     s_point := s_point st; cout := cout st; pca_calls := pca_calls st |}.

(** Lines 250-255. *)
Definition report (s_point : Z) : list Output :=
  if (s_point mod 10000 =? 0) && verbose then
    [Done s_point; Done (to_size_t (s_point * 100) / to_size_t n_points)]
  else [].

(** The body of the loop over the points.  [None] is undefined
    behaviour: the eigenvalues of a default-constructed [pca] are read
    when the search loop made no iteration. *)
Definition point_body (i_point : Z) (st : State) : option State :=
  let k_nn := neighbor_count st i_point in
  if degenerate k_nn then Some (zero_fill i_point st)
  else
    let s := search st i_point k_nn in
    match incumbent s with
    | None => None
    | Some (pca, k_optimal) =>
        let s_point' := to_size_t (s_point st + 1) in
        Some {| xyz := xyz st; nn := nn st; nn_ptr := nn_ptr st;
                features := populate (i_point * 11 + 0)
                              (geometric_features pca) (features st);
                s_point := s_point';
                cout := cout st ++ report s_point';
                pca_calls := pca_calls st
                             ++ map (pair i_point) (evaluated s) |}
    end.

(** ParallelDriver: the loop of line 133 and the final print. *)
Definition run_points (points : list Z) (st : State) : option State :=
  fold_left
    (fun acc i_point =>
       match acc with
       | Some s => point_body i_point s
       | None => None
       end)
    points (Some st).

Definition compute_geometric_features (st : State) : option State :=
  let st0 := {| xyz := xyz st; nn := nn st; nn_ptr := nn_ptr st;
                features := features st; s_point := 0;
                cout := cout st; pca_calls := pca_calls st |} in
  match run_points (range 0 (to_size_t n_points)) st0 with
  | Some s =>
      Some {| xyz := xyz s; nn := nn s; nn_ptr := nn_ptr s;
              features := features s; s_point := s_point s;
              cout := cout s ++ (if verbose then [Endl] else []);
              pca_calls := pca_calls s |}
  | None => None
  end.
End Point.

(** * Notions used in the statements *)

Open Scope Z_scope.

(** What a point's computation leaves alone. *)
Definition frame (i_point : Z) (st st' : State) : Prop :=
  xyz st' = xyz st /\ nn st' = nn st /\ nn_ptr st' = nn_ptr st /\
  forall a, ~ (i_point * 11 <= a <= i_point * 11 + 10) ->
            features st' a = features st a.

(** [a] lies in the output slice of one of [points]. *)
Definition in_slices (points : list Z) (a : Z) : bool :=
  existsb (fun i => (i * 11 <=? a) && (a <=? i * 11 + 10)) points.

(** The sizes that the loop of line 174 does not skip. *)
Definition candidates (k_step k0 k_nn : Z) : list Z :=
  filter (fun k => negb (skipped k_step k0 k_nn k)) (range k0 (k_nn + 1)).

(** The candidate sizes in the words of the specification: [k0],
    [k0 + k_step], [k0 + 2 k_step], ... as long as [k_nn] is not exceeded,
    and [k_nn] itself. *)
Definition spec_sizes (k_min k_step k_min_search k_nn k : Z) : Prop :=
  let k0 := Z.min (Z.max k_min k_min_search) k_nn in
  k = k_nn \/ exists j, 0 <= j /\ k = k0 + j * k_step /\ k <= k_nn.

(** ** A concrete cloud

    Two points, (30, 0, 0) and (-30, 0, 0); every point has [k_nn]
    neighbours, which are the two points in turn. *)
Definition line_state (k_nn : Z) : State :=
  {| xyz := fun a => if a =? 0 then 30%R else if a =? 3 then (-30)%R else 0%R;
     nn := fun a => a mod 2;
     nn_ptr := fun i => k_nn * i;
     features := fun _ => 0%R;
     s_point := 0; cout := []; pca_calls := [] |}.

(** The six vertices of an octahedron, (1,0,0), (-1,0,0), (0,1,0),
    (0,-1,0), (0,0,1), (0,0,-1); every point has all six as neighbours. *)
Definition octahedron_state : State :=
  {| xyz := fun a =>
       if (a =? 0) || (a =? 7) || (a =? 14) then 1%R
       else if (a =? 3) || (a =? 10) || (a =? 17) then (-1)%R else 0%R;
     nn := fun a => a mod 6;
     nn_ptr := fun i => 6 * i;
     features := fun _ => 0%R;
     s_point := 0; cout := []; pca_calls := [] |}.

(** An eigendecomposition that is exact on diagonal matrices: the
    diagonal, with the canonical basis. *)
Definition diag_solver (m : Matrix3f) : EigenSolver :=
  {| eigenvalues := vec3 (m 0 0) (m 1 1) (m 2 2);
     eigenvectors_col := fun j =>
       vec3 (if j =? 0 then 1%R else 0%R)
            (if j =? 1 then 1%R else 0%R)
            (if j =? 2 then 1%R else 0%R) |}.

(** ** Notions for the whole run *)

(** Two states with the same input buffers. *)
Definition same_inputs (s st : State) : Prop :=
  xyz s = xyz st /\ nn s = nn st /\ nn_ptr s = nn_ptr st.

(** The eleven values that the loop body stores for point [i_point];
    [None] where the body is undefined. *)
Definition point_values (eigen_solve : Matrix3f -> EigenSolver)
  (k_min k_step k_min_search : Z) (st : State) (i_point : Z)
  : option (list float) :=
  let k_nn := neighbor_count st i_point in
  if degenerate k_min k_nn then Some (repeat 0%R 11)
  else
    match incumbent (search eigen_solve k_min k_step k_min_search st
                       i_point k_nn) with
    | None => None
    | Some (pca, _) => Some (geometric_features pca)
    end.

(** The value that the body of point [a / 11] stores in [features[a]]. *)
Definition slot_value (eigen_solve : Matrix3f -> EigenSolver)
  (k_min k_step k_min_search : Z) (st : State) (a : Z) : float :=
  match point_values eigen_solve k_min k_step k_min_search st (a / 11) with
  | Some vs => nth (Z.to_nat (a mod 11)) vs 0%R
  | None => 0%R
  end.

(** The points of a list that are not zero-filled. *)
Definition computed_points (k_min : Z) (st : State) (points : list Z)
  : list Z :=
  filter (fun i => negb (degenerate k_min (neighbor_count st i))) points.

(** The coordinates [xyz] moved by the vector [t]. *)
Definition translate (t : Vector3f) (xyz : Z -> float) : Z -> float :=
  fun a => (xyz a + at3 t (a mod 3))%R.

(** [w^T m w]. *)
Definition quadratic_form (m : Matrix3f) (w : Vector3f) : float :=
  let m00 := m 0 0 in let m01 := m 0 1 in let m02 := m 0 2 in
  let m10 := m 1 0 in let m11 := m 1 1 in let m12 := m 1 2 in
  let m20 := m 2 0 in let m21 := m 2 1 in let m22 := m 2 2 in
  (c0 w * (c0 w * m00 + c1 w * m01 + c2 w * m02)
   + c1 w * (c0 w * m10 + c1 w * m11 + c2 w * m12)
   + c2 w * (c0 w * m20 + c1 w * m21 + c2 w * m22))%R.

(** * Properties *)

(** ** Integer conversions and ranges *)

Open Scope Z_scope.

Lemma to_size_t_small (z : Z) : 0 <= z < 2 ^ 64 -> to_size_t z = z.
Proof. intros H. unfold to_size_t. now apply Z.mod_small. Qed.

Lemma to_size_t_negative (z : Z) :
  int_range z -> z < 0 -> to_size_t z = 2 ^ 64 + z.
Proof.
  unfold int_range, to_size_t. intros Hr Hn.
  symmetry. apply (Z.mod_unique_pos z (2 ^ 64) (-1)); lia.
Qed.

Lemma to_int_small (z : Z) : 0 <= z < 2 ^ 31 -> to_int z = z.
Proof.
  intros H. unfold to_int. rewrite Z.mod_small; lia.
Qed.

Lemma to_uint32_bounds (z : Z) : 0 <= to_uint32 z < 2 ^ 32.
Proof. unfold to_uint32. apply Z.mod_pos_bound. lia. Qed.

Lemma neighbor_count_bounds (st : State) (i_point : Z) :
  0 <= neighbor_count st i_point < 2 ^ 32.
Proof.
  unfold neighbor_count.
  pose proof (to_uint32_bounds (nn_ptr st (i_point + 1) - nn_ptr st i_point)).
  rewrite to_size_t_small; lia.
Qed.

Lemma range_cons (lo hi : Z) : lo < hi -> range lo hi = lo :: range (lo + 1) hi.
Proof.
  intros H. unfold range.
  replace (Z.to_nat (hi - lo)) with (S (Z.to_nat (hi - (lo + 1)))) by lia.
  cbn [seq map]. f_equal; [lia|].
  rewrite <- seq_shift, map_map. apply map_ext. intros n. lia.
Qed.

Lemma in_range (lo hi k : Z) : In k (range lo hi) <-> lo <= k < hi.
Proof.
  unfold range. rewrite in_map_iff. split.
  - intros (n & <- & Hn). apply in_seq in Hn. lia.
  - intros H. exists (Z.to_nat (k - lo)). split; [lia|].
    apply in_seq. lia.
Qed.

Lemma range_sorted (lo hi : Z) : StronglySorted Z.lt (range lo hi).
Proof.
  unfold range. generalize (Z.to_nat (hi - lo)) as n. intros n.
  revert lo. induction n as [|n IH]; intros lo; cbn [seq map].
  - constructor.
  - constructor.
    + rewrite <- seq_shift, map_map.
      erewrite map_ext; [apply (IH (lo + 1))|]. intros a. lia.
    + apply Forall_forall. intros x Hx. apply in_map_iff in Hx.
      destruct Hx as (m & <- & Hm). apply in_seq in Hm. lia.
Qed.

(** ** The output buffer *)

Lemma populate_outside (vs : list float) (base : Z) (buf : Z -> float) (a : Z) :
  ~ (base <= a < base + Z.of_nat (length vs)) ->
  populate base vs buf a = buf a.
Proof.
  revert base buf. induction vs as [|v vs IH]; intros base buf H; cbn [populate].
  - reflexivity.
  - cbn [length] in H. rewrite IH by lia.
    unfold store. destruct (Z.eqb_spec a base); [lia|reflexivity].
Qed.

Lemma populate_inside (vs : list float) (base : Z) (buf : Z -> float) (n : nat) :
  (n < length vs)%nat ->
  populate base vs buf (base + Z.of_nat n) = nth n vs 0%R.
Proof.
  revert base buf n. induction vs as [|v vs IH]; intros base buf n H;
    cbn [populate length] in *.
  - lia.
  - destruct n as [|n].
    + rewrite populate_outside by lia.
      unfold store. rewrite Z.add_0_r, Z.eqb_refl. reflexivity.
    + replace (base + Z.of_nat (S n)) with (base + 1 + Z.of_nat n) by lia.
      rewrite IH by lia. reflexivity.
Qed.

Lemma geometric_features_length (pca : PCAOutput) :
  length (geometric_features pca) = 11%nat.
Proof. reflexivity. Qed.

Arguments populate : simpl never.
Arguments geometric_features : simpl never.

Section PointFacts.
Variable eigen_solve : Matrix3f -> EigenSolver.
Variables (k_min k_step k_min_search n_points : Z) (verbose : bool).

Local Abbreviation body :=
  (point_body eigen_solve k_min k_step k_min_search n_points verbose).

Lemma point_body_frame (i_point : Z) (st st' : State) :
  body i_point st = Some st' -> frame i_point st st'.
Proof.
  unfold point_body, frame. intros H.
  destruct (degenerate _ _).
  - injection H as <-. cbn [zero_fill xyz nn nn_ptr features]. repeat split.
    intros a Ha. apply populate_outside. rewrite repeat_length. lia.
  - destruct (incumbent _) as [[pca k_optimal]|]; [|discriminate].
    injection H as <-. cbn [xyz nn nn_ptr features]. repeat split.
    intros a Ha. apply populate_outside.
    rewrite geometric_features_length. lia.
Qed.

Lemma degenerate_negative (k_nn : Z) :
  int_range k_min -> k_min < 0 -> 0 <= k_nn < 2 ^ 32 ->
  degenerate k_min k_nn = true.
Proof.
  intros Hr Hn Hk. unfold degenerate.
  rewrite (to_size_t_negative _ Hr Hn).
  apply orb_true_iff. left. apply Z.ltb_lt. unfold int_range in Hr. lia.
Qed.

Lemma degenerate_false (k_nn : Z) :
  int_range k_min -> 0 <= k_nn < 2 ^ 32 ->
  degenerate k_min k_nn = false -> 0 <= k_min <= k_nn /\ 0 < k_nn.
Proof.
  intros Hr Hk H. destruct (Z_lt_le_dec k_min 0) as [Hn|Hn].
  - rewrite (degenerate_negative _ Hr Hn Hk) in H. discriminate.
  - unfold degenerate in H. apply orb_false_iff in H. destruct H as [H1 H2].
    unfold int_range in Hr. rewrite to_size_t_small in H1 by lia. lia.
Qed.

Lemma point_body_degenerate (i_point : Z) (st : State) :
  degenerate k_min (neighbor_count st i_point) = true ->
  body i_point st = Some (zero_fill i_point st).
Proof. unfold point_body. intros ->. reflexivity. Qed.

Lemma zero_fill_slice (i_point j : Z) (st : State) :
  0 <= j < 11 -> features (zero_fill i_point st) (i_point * 11 + j) = 0%R.
Proof.
  intros Hj. cbn [zero_fill features].
  replace (i_point * 11 + j) with (i_point * 11 + 0 + Z.of_nat (Z.to_nat j)) by lia.
  rewrite populate_inside by (rewrite repeat_length; lia).
  apply nth_repeat.
Qed.
End PointFacts.

(** ** The driver *)

Section DriverFacts.
Variable eigen_solve : Matrix3f -> EigenSolver.
Variables (k_min k_step k_min_search n_points : Z) (verbose : bool).

Local Abbreviation body :=
  (point_body eigen_solve k_min k_step k_min_search n_points verbose).
Local Abbreviation run :=
  (run_points eigen_solve k_min k_step k_min_search n_points verbose).

Lemma run_points_cons (i_point : Z) (points : list Z) (st : State) :
  run (i_point :: points) st =
  match body i_point st with
  | Some s => run points s
  | None => None
  end.
Proof.
  unfold run_points. cbn [fold_left].
  destruct (body i_point st) as [s|]; [reflexivity|].
  induction points as [|p ps IH]; [reflexivity|exact IH].
Qed.

Lemma run_points_all_degenerate (points : list Z) :
  (forall k_nn, 0 <= k_nn < 2 ^ 32 -> degenerate k_min k_nn = true) ->
  forall st, exists st',
    run points st = Some st' /\
    (forall a, features st' a =
               if in_slices points a then 0%R else features st a) /\
    pca_calls st' = pca_calls st /\ s_point st' = s_point st /\
    cout st' = cout st.
Proof.
  intros Hdeg. induction points as [|i ps IH]; intros st.
  - exists st. cbn. auto.
  - rewrite run_points_cons, point_body_degenerate
      by apply Hdeg, neighbor_count_bounds.
    destruct (IH (zero_fill i st)) as (st' & Hrun & Hf & Hc & Hs & Ho).
    exists st'. repeat split; try assumption.
    intros a. rewrite Hf.
    change (in_slices (i :: ps) a)
      with (((i * 11 <=? a) && (a <=? i * 11 + 10)) || in_slices ps a).
    destruct (in_slices ps a) eqn:Hps.
    + now rewrite orb_true_r.
    + rewrite orb_false_r.
      destruct ((i * 11 <=? a) && (a <=? i * 11 + 10)) eqn:Hi.
      * apply andb_true_iff in Hi. destruct Hi as [H1 H2].
        apply Z.leb_le in H1, H2.
        replace a with (i * 11 + (a - i * 11)) by lia.
        apply zero_fill_slice. lia.
      * cbn [zero_fill features]. apply populate_outside.
        rewrite repeat_length.
        apply andb_false_iff in Hi. destruct Hi as [Hi|Hi];
          [apply Z.leb_gt in Hi|apply Z.leb_gt in Hi]; lia.
Qed.

Lemma in_slices_range (n i j : Z) :
  0 <= i < n -> 0 <= j < 11 -> in_slices (range 0 n) (i * 11 + j) = true.
Proof.
  intros Hi Hj. apply existsb_exists. exists i. split.
  - apply in_range. lia.
  - apply andb_true_iff. split; apply Z.leb_le; lia.
Qed.
End DriverFacts.

(** ** Frame, degenerate points and negative [k_min] *)

(** C9: the computation of point [i_point] stores only into
    [features[11*i_point .. 11*i_point + 10]]: every other element of the
    output buffer, and the buffers [xyz], [nn] and [nn_ptr], are as before. *)
Theorem point_writes_only_its_slice
  (eigen_solve : Matrix3f -> EigenSolver)
  (k_min k_step k_min_search n_points : Z) (verbose : bool)
  (i_point : Z) (st st' : State) :
  point_body eigen_solve k_min k_step k_min_search n_points verbose
    i_point st = Some st' ->
  xyz st' = xyz st /\ nn st' = nn st /\ nn_ptr st' = nn_ptr st /\
  forall a, ~ (11 * i_point <= a <= 11 * i_point + 10) ->
            features st' a = features st a.
Proof.
  intros H. apply point_body_frame in H.
  destruct H as (Hx & Hn & Hp & Hf). repeat split; try assumption.
  intros a Ha. apply Hf. lia.
Qed.

(** C6: a point whose neighbour count is below [k_min], or zero, gets
    eleven zeros in its output slice, nothing else is stored, and
    [neighborhood_pca] is not called. *)
Theorem degenerate_point_zero_filled
  (eigen_solve : Matrix3f -> EigenSolver)
  (k_min k_step k_min_search n_points : Z) (verbose : bool)
  (i_point : Z) (st : State) :
  int_range k_min ->
  neighbor_count st i_point < k_min \/ neighbor_count st i_point = 0 ->
  exists st',
    point_body eigen_solve k_min k_step k_min_search n_points verbose
      i_point st = Some st' /\
    (forall j, 0 <= j < 11 -> features st' (i_point * 11 + j) = 0%R) /\
    (forall a, ~ (i_point * 11 <= a <= i_point * 11 + 10) ->
               features st' a = features st a) /\
    pca_calls st' = pca_calls st.
Proof.
  intros Hr Hk. exists (zero_fill i_point st).
  pose proof (neighbor_count_bounds st i_point) as Hb.
  assert (Hdeg : degenerate k_min (neighbor_count st i_point) = true).
  { unfold degenerate. apply orb_true_iff. destruct Hk as [Hk|Hk].
    - left. apply Z.ltb_lt. unfold int_range in Hr.
      rewrite to_size_t_small; lia.
    - right. apply Z.leb_le. lia. }
  split; [now apply point_body_degenerate|].
  split; [intros j Hj; now apply zero_fill_slice|].
  split; [|reflexivity].
  intros a Ha. cbn [zero_fill features]. apply populate_outside.
  rewrite repeat_length. lia.
Qed.

(** C10: with a negative [k_min] the guard [k_nn < k_min] holds for every
    neighbour count, and [compute_geometric_features] stores zeros in the
    eleven output elements of every point without calling
    [neighborhood_pca]. *)
Theorem negative_k_min_zero_fills_all
  (eigen_solve : Matrix3f -> EigenSolver)
  (k_min k_step k_min_search n_points : Z) (verbose : bool) (st : State) :
  int_range k_min -> k_min < 0 -> 0 <= n_points < 2 ^ 31 ->
  (forall s i_point, degenerate k_min (neighbor_count s i_point) = true) /\
  exists st',
    compute_geometric_features eigen_solve k_min k_step k_min_search
      n_points verbose st = Some st' /\
    (forall i_point j, 0 <= i_point < n_points -> 0 <= j < 11 ->
                       features st' (i_point * 11 + j) = 0%R) /\
    pca_calls st' = pca_calls st.
Proof.
  intros Hr Hn Hp.
  assert (Hdeg : forall k_nn, 0 <= k_nn < 2 ^ 32 -> degenerate k_min k_nn = true)
    by (intros; now apply degenerate_negative).
  split; [intros; apply Hdeg, neighbor_count_bounds|].
  unfold compute_geometric_features.
  rewrite (to_size_t_small n_points) by lia.
  match goal with
  | |- context [run_points _ _ _ _ _ _ ?l ?s] =>
      destruct (run_points_all_degenerate eigen_solve k_min k_step
                  k_min_search n_points verbose l Hdeg s)
        as (st' & -> & Hf & Hc & _)
  end.
  eexists. split; [reflexivity|]. cbn [features pca_calls] in *.
  split; [|exact Hc].
  intros i j Hi Hj. rewrite Hf, in_slices_range by lia. reflexivity.
Qed.

(** ** The adaptive search *)

Example candidates_5_3_10 : candidates 3 5 10 = [5; 6; 9; 10].
Proof. reflexivity. Qed.

Example candidates_stride_1 : candidates 1 3 6 = [3; 4; 5; 6].
Proof. reflexivity. Qed.

Example degenerate_minus_1 : degenerate (-1) 7 = true.
Proof. reflexivity. Qed.

Lemma StronglySorted_filter {A : Type} (R : A -> A -> Prop) (f : A -> bool)
  (l : list A) :
  StronglySorted R l -> StronglySorted R (filter f l).
Proof.
  induction 1 as [|a l Hs IH Ha]; cbn [filter].
  - constructor.
  - destruct (f a); [|exact IH]. constructor; [exact IH|].
    apply Forall_forall. intros x Hx. apply filter_In in Hx.
    rewrite Forall_forall in Ha. now apply Ha.
Qed.

Lemma candidates_sorted (k_step k0 k_nn : Z) :
  StronglySorted Z.lt (candidates k_step k0 k_nn).
Proof. apply StronglySorted_filter, range_sorted. Qed.

Lemma in_candidates (k_step k0 k_nn k : Z) :
  int_range k_step -> 1 <= k_step ->
  In k (candidates k_step k0 k_nn) <->
  k0 <= k <= k_nn /\ (k = k0 \/ k mod k_step = 0 \/ k = k_nn).
Proof.
  intros Hr Hs. unfold candidates, skipped, int_range in *.
  rewrite filter_In, in_range, to_size_t_small by lia.
  rewrite negb_true_iff, !andb_false_iff, !negb_false_iff.
  rewrite Z.ltb_ge, !Z.eqb_eq. lia.
Qed.

Lemma candidates_head (k_step k0 k_nn : Z) :
  k0 <= k_nn ->
  candidates k_step k0 k_nn =
  k0 :: filter (fun k => negb (skipped k_step k0 k_nn k))
          (range (k0 + 1) (k_nn + 1)).
Proof.
  intros H. unfold candidates. rewrite range_cons by lia. cbn [filter].
  unfold skipped at 1. rewrite Z.ltb_irrefl. reflexivity.
Qed.

Section SearchFacts.
Variable eigen_solve : Matrix3f -> EigenSolver.
Variables (k_step : Z) (st : State) (i_point k0 k_nn : Z).

Local Abbreviation pca_at :=
  (neighborhood_pca eigen_solve (xyz st) (nn st) (nn_ptr st) i_point).
Local Abbreviation entropy_at := (fun k => eigenentropy (pca_at k)).
Local Abbreviation body := (search_body eigen_solve k_step st i_point k0 k_nn).
Local Abbreviation keep := (fun k => negb (skipped k_step k0 k_nn k)).

Lemma search_body_skipped (s : Search) (k : Z) :
  skipped k_step k0 k_nn k = true -> body s k = s.
Proof. unfold search_body. now intros ->. Qed.

Lemma search_body_first (s : Search) :
  body s k0 =
  {| incumbent := Some (pca_at k0, k0); evaluated := evaluated s ++ [k0] |}.
Proof.
  unfold search_body, skipped, improves.
  rewrite Z.ltb_irrefl, Z.eqb_refl. reflexivity.
Qed.

Lemma search_body_later (s : Search) (pca : PCAOutput) (k_optimal k : Z) :
  skipped k_step k0 k_nn k = false -> k <> k0 ->
  k <> 0 -> k_optimal <> 0 ->
  incumbent s = Some (pca, k_optimal) ->
  body s k =
  {| incumbent := if fltb (entropy_at k) (eigenentropy pca)
                  then Some (pca_at k, k) else Some (pca, k_optimal);
     evaluated := evaluated s ++ [k] |}.
Proof.
  intros Hs Hk Hk0 Hko Hi. unfold search_body, improves, not_a_number.
  rewrite Hs, Hi.
  destruct (Z.eqb_spec k k0); [contradiction|].
  destruct (Z.eqb_spec k 0); [contradiction|].
  destruct (Z.eqb_spec k_optimal 0); [contradiction|]. reflexivity.
Qed.

(** Whatever the comparisons, the incumbent is the result of one of the
    sizes already evaluated. *)
Lemma search_fold_retains (l : list Z) :
  forall (kp : Z) (s : Search),
    incumbent s = Some (pca_at kp, kp) ->
    exists ko,
      incumbent (fold_left body l s) = Some (pca_at ko, ko) /\
      In ko (kp :: filter keep l).
Proof.
  induction l as [|k l IH]; intros kp s Hs; cbn [fold_left filter].
  - exists kp. split; [exact Hs|now left].
  - unfold search_body at 2.
    destruct (skipped k_step k0 k_nn k) eqn:Hk; cbn [negb].
    + apply IH, Hs.
    + destruct (improves k0 k (pca_at k) s).
      * destruct (IH k {| incumbent := Some (pca_at k, k);
                          evaluated := evaluated s ++ [k] |} eq_refl)
          as (ko & Hko & Hin).
        exists ko. split; [exact Hko|now right].
      * destruct (IH kp {| incumbent := incumbent s;
                           evaluated := evaluated s ++ [k] |} Hs)
          as (ko & Hko & Hin).
        exists ko. split; [exact Hko|].
        destruct Hin as [<-|Hin]; [now left|now right; right].
Qed.


Lemma search_fold_filter (l : list Z) (s : Search) :
  fold_left body l s = fold_left body (filter keep l) s.
Proof.
  revert s. induction l as [|k l IH]; intros s; cbn [filter fold_left].
  - reflexivity.
  - destruct (skipped k_step k0 k_nn k) eqn:Hk; cbn [negb fold_left].
    + rewrite search_body_skipped by assumption. apply IH.
    + apply IH.
Qed.

Lemma search_fold_evaluated (l : list Z) (s : Search) :
  evaluated (fold_left body l s) = evaluated s ++ filter keep l.
Proof.
  revert s. induction l as [|k l IH]; intros s; cbn [filter fold_left].
  - now rewrite app_nil_r.
  - rewrite IH. destruct (skipped k_step k0 k_nn k) eqn:Hk; cbn [negb].
    + now rewrite search_body_skipped.
    + unfold search_body. rewrite Hk. cbn [evaluated].
      now rewrite <- app_assoc.
Qed.

(** Scanning increasing sizes with a strict comparison retains the
    smallest size among those of least eigenentropy. *)
Lemma search_fold_first_min (l : list Z) :
  forall (kp : Z) (s : Search),
    1 <= kp ->
    StronglySorted Z.lt (kp :: l) ->
    (forall k, In k l -> skipped k_step k0 k_nn k = false /\ k <> k0) ->
    incumbent s = Some (pca_at kp, kp) ->
    exists ko,
      incumbent (fold_left body l s) = Some (pca_at ko, ko) /\
      In ko (kp :: l) /\
      forall k, In k (kp :: l) ->
                (entropy_at ko <= entropy_at k)%R /\
                (k < ko -> (entropy_at ko < entropy_at k)%R).
Proof.
  induction l as [|k l IH]; intros kp s Hpos Hsort Hl Hs.
  - exists kp. cbn [fold_left]. split; [assumption|]. split; [now left|].
    intros k [<-|[]]. split; [apply Rle_refl|lia].
  - apply StronglySorted_inv in Hsort. destruct Hsort as [Hsort Hall].
    apply StronglySorted_inv in Hsort. destruct Hsort as [Hsort' Hall'].
    apply Forall_cons_iff in Hall. destruct Hall as [Hkp Hall].
    destruct (Hl k (or_introl eq_refl)) as [Hk1 Hk2].
    cbn [fold_left].
    assert (Hk0 : k <> 0) by lia. assert (Hkp0 : kp <> 0) by lia.
    rewrite (search_body_later s _ _ _ Hk1 Hk2 Hk0 Hkp0 Hs).
    unfold fltb. destruct (Rlt_dec (entropy_at k) (entropy_at kp)) as [Hlt|Hge].
    + destruct (IH k {| incumbent := Some (pca_at k, k);
                        evaluated := evaluated s ++ [k] |})
        as (ko & Hko & Hin & Hmin).
      * lia.
      * now constructor.
      * intros x Hx. apply Hl. now right.
      * reflexivity.
      * exists ko. split; [exact Hko|]. split; [now right|].
        intros x [<-|Hx]; [|now apply Hmin].
        destruct (Hmin k (or_introl eq_refl)) as [Hle _].
        split; [|intros _]; lra.
    + destruct (IH kp {| incumbent := Some (pca_at kp, kp);
                         evaluated := evaluated s ++ [k] |})
        as (ko & Hko & Hin & Hmin).
      * exact Hpos.
      * now constructor.
      * intros x Hx. apply Hl. now right.
      * reflexivity.
      * exists ko. split; [exact Hko|].
        split; [destruct Hin as [<-|Hin]; [now left|now right; right]|].
        intros x [<-|[<-|Hx]].
        -- now apply Hmin; left.
        -- destruct (Hmin kp (or_introl eq_refl)) as [Hle Hst].
           split; [lra|]. intros Hlt.
           destruct Hin as [<-|Hin]; [lia|].
           rewrite Forall_forall in Hall. specialize (Hall ko Hin).
           specialize (Hst Hall). lra.
        -- now apply Hmin; right.
Qed.

Lemma search_fold_candidates (s0 : Search) :
  k0 <= k_nn ->
  let s := fold_left body (range k0 (k_nn + 1)) s0 in
  evaluated s = evaluated s0 ++ candidates k_step k0 k_nn /\
  exists ko,
    incumbent s = Some (pca_at ko, ko) /\
    In ko (candidates k_step k0 k_nn).
Proof.
  intros Hle s. subst s. split; [apply search_fold_evaluated|].
  rewrite candidates_head by assumption.
  rewrite range_cons by lia. cbn [fold_left]. rewrite search_body_first.
  apply search_fold_retains. reflexivity.
Qed.

Lemma search_fold_candidates_min (s0 : Search) :
  1 <= k0 <= k_nn ->
  let s := fold_left body (range k0 (k_nn + 1)) s0 in
  exists ko,
    incumbent s = Some (pca_at ko, ko) /\
    In ko (candidates k_step k0 k_nn) /\
    forall k, In k (candidates k_step k0 k_nn) ->
              (entropy_at ko <= entropy_at k)%R /\
              (k < ko -> (entropy_at ko < entropy_at k)%R).
Proof.
  intros [Hpos Hle] s. subst s.
  rewrite search_fold_filter. fold (candidates k_step k0 k_nn).
  pose proof (candidates_sorted k_step k0 k_nn) as Hsort.
  rewrite candidates_head in * by assumption.
  cbn [fold_left]. rewrite search_body_first.
  apply search_fold_first_min.
  - exact Hpos.
  - exact Hsort.
  - intros k Hk. apply filter_In in Hk. destruct Hk as [Hk1 Hk2].
    apply in_range in Hk1. apply negb_true_iff in Hk2. split; [exact Hk2|lia].
  - reflexivity.
Qed.
End SearchFacts.

Section AdaptiveFacts.
Variable eigen_solve : Matrix3f -> EigenSolver.
Variables (k_min k_step k_min_search : Z).
Hypothesis k_min_int : int_range k_min.
Hypothesis k_min_search_int : int_range k_min_search.
Hypothesis k_step_int : int_range k_step.
Hypothesis search_enabled : 1 <= k_step.

Lemma search_start_eq (k_nn : Z) :
  0 <= k_nn < 2 ^ 31 -> degenerate k_min k_nn = false ->
  search_start k_min k_min_search k_nn = Z.min (Z.max k_min k_min_search) k_nn /\
  0 <= Z.min (Z.max k_min k_min_search) k_nn <= k_nn.
Proof.
  intros Hk Hd. apply degenerate_false in Hd; [|assumption|lia].
  unfold search_start. rewrite to_int_small by assumption.
  unfold int_range in *. rewrite to_size_t_small by lia. lia.
Qed.

Lemma search_adaptive (st : State) (i_point k_nn : Z) :
  0 <= k_nn < 2 ^ 31 -> degenerate k_min k_nn = false ->
  let k0 := Z.min (Z.max k_min k_min_search) k_nn in
  let pca_at := neighborhood_pca eigen_solve (xyz st) (nn st) (nn_ptr st) i_point in
  let s := search eigen_solve k_min k_step k_min_search st i_point k_nn in
  evaluated s = candidates k_step k0 k_nn /\
  exists ko,
    incumbent s = Some (pca_at ko, ko) /\
    In ko (candidates k_step k0 k_nn).
Proof.
  intros Hk Hd k0 pca_at s. subst s. unfold search.
  destruct (Z.ltb_spec k_step 1) as [Hlt|_]; [lia|].
  destruct (search_start_eq k_nn Hk Hd) as [-> Hk0]. fold k0 in Hk0 |- *.
  apply (search_fold_candidates eigen_solve k_step st i_point k0 k_nn
           {| incumbent := None; evaluated := [] |}).
  lia.
Qed.

(** With a first candidate of at least one neighbour every compared
    eigenentropy is a number, and the search retains the smallest size of
    least eigenentropy. *)
Lemma search_adaptive_min (st : State) (i_point k_nn : Z) :
  0 <= k_nn < 2 ^ 31 -> degenerate k_min k_nn = false ->
  1 <= Z.max k_min k_min_search ->
  let k0 := Z.min (Z.max k_min k_min_search) k_nn in
  let pca_at := neighborhood_pca eigen_solve (xyz st) (nn st) (nn_ptr st) i_point in
  let s := search eigen_solve k_min k_step k_min_search st i_point k_nn in
  exists ko,
    incumbent s = Some (pca_at ko, ko) /\
    In ko (candidates k_step k0 k_nn) /\
    forall k, In k (candidates k_step k0 k_nn) ->
              (eigenentropy (pca_at ko) <= eigenentropy (pca_at k))%R /\
              (k < ko -> (eigenentropy (pca_at ko) < eigenentropy (pca_at k))%R).
Proof.
  intros Hk Hd Hfloor k0 pca_at s. subst s. unfold search.
  destruct (Z.ltb_spec k_step 1) as [Hlt|_]; [lia|].
  destruct (search_start_eq k_nn Hk Hd) as [-> Hk0]. fold k0 in Hk0 |- *.
  pose proof (degenerate_false k_min k_nn k_min_int ltac:(lia) Hd) as [_ Hp].
  apply (search_fold_candidates_min eigen_solve k_step st i_point k0 k_nn
           {| incumbent := None; evaluated := [] |}).
  unfold k0 in *. lia.
Qed.

Lemma point_body_adaptive (n_points : Z) (verbose : bool)
  (i_point : Z) (st : State) :
  let k_nn := neighbor_count st i_point in
  k_nn < 2 ^ 31 -> degenerate k_min k_nn = false ->
  let k0 := Z.min (Z.max k_min k_min_search) k_nn in
  exists st',
    point_body eigen_solve k_min k_step k_min_search n_points verbose
      i_point st = Some st' /\
    pca_calls st' = pca_calls st ++ map (pair i_point) (candidates k_step k0 k_nn).
Proof.
  intros k_nn Hk Hd k0.
  assert (Hb : 0 <= k_nn < 2 ^ 31).
  { pose proof (neighbor_count_bounds st i_point) as Hb.
    change (neighbor_count st i_point) with k_nn in Hb. lia. }
  destruct (search_adaptive st i_point k_nn Hb Hd) as (Hev & ko & Hinc & _).
  unfold point_body. fold k_nn. rewrite Hd, Hinc, Hev.
  eexists. split; reflexivity.
Qed.
End AdaptiveFacts.

(** With 2^31 neighbours or more, [int(k_nn)] is negative, [k0] wraps to
    a huge [std::size_t] and the loop of line 174 makes no iteration: this
    is why the statements on the search assume [k_nn < 2^31]. *)
Lemma search_without_iteration
  (eigen_solve : Matrix3f -> EigenSolver)
  (k_min k_step k_min_search : Z) (st : State) (i_point k_nn : Z) :
  int_range k_min -> int_range k_min_search -> 1 <= k_step ->
  2 ^ 31 <= k_nn < 2 ^ 32 -> degenerate k_min k_nn = false ->
  incumbent (search eigen_solve k_min k_step k_min_search st i_point k_nn)
  = None.
Proof.
  intros Hm Hs H1 Hk Hd. apply degenerate_false in Hd; [|assumption|lia].
  unfold search. destruct (Z.ltb_spec k_step 1) as [Hlt|_]; [lia|].
  assert (Hi : to_int k_nn = k_nn - 2 ^ 32).
  { unfold to_int.
    assert (Hmod : (k_nn + 2 ^ 31) mod 2 ^ 32 = k_nn - 2 ^ 31)
      by (symmetry; apply (Z.mod_unique_pos _ _ 1); lia).
    rewrite Hmod. lia. }
  assert (H0 : search_start k_min k_min_search k_nn = 2 ^ 64 + (k_nn - 2 ^ 32)).
  { unfold search_start. rewrite Hi.
    replace (Z.min (Z.max k_min k_min_search) (k_nn - 2 ^ 32))
      with (k_nn - 2 ^ 32) by lia.
    apply to_size_t_negative; unfold int_range; lia. }
  rewrite H0. unfold range.
  replace (Z.to_nat (k_nn + 1 - (2 ^ 64 + (k_nn - 2 ^ 32)))) with 0%nat by lia.
  reflexivity.
Qed.

(** C1, as the code has it: with the search enabled, a point that is not
    zero-filled has [neighborhood_pca] called, once each and in increasing
    order, at [k0 = min(max(k_min, k_min_search), k_nn)], at every multiple
    of [k_step] strictly between [k0] and [k_nn], and at [k_nn]. *)
Theorem adaptive_search_sizes
  (eigen_solve : Matrix3f -> EigenSolver)
  (k_min k_step k_min_search n_points : Z) (verbose : bool)
  (i_point : Z) (st : State) :
  int_range k_min -> int_range k_min_search -> int_range k_step ->
  1 <= k_step ->
  let k_nn := neighbor_count st i_point in
  k_nn < 2 ^ 31 -> degenerate k_min k_nn = false ->
  let k0 := Z.min (Z.max k_min k_min_search) k_nn in
  exists st' sizes,
    point_body eigen_solve k_min k_step k_min_search n_points verbose
      i_point st = Some st' /\
    pca_calls st' = pca_calls st ++ map (pair i_point) sizes /\
    StronglySorted Z.lt sizes /\
    forall k, In k sizes <->
              k = k0 \/ (k0 < k < k_nn /\ k mod k_step = 0) \/ k = k_nn.
Proof.
  intros Hm Hs Ht H1 k_nn Hk Hd k0.
  destruct (point_body_adaptive eigen_solve k_min k_step k_min_search
              Hm Hs H1 n_points verbose i_point st Hk Hd)
    as (st' & Hbody & Hcalls).
  exists st', (candidates k_step k0 k_nn).
  split; [exact Hbody|]. split; [exact Hcalls|].
  split; [apply candidates_sorted|].
  intros k. rewrite in_candidates by assumption.
  assert (Hb : 0 <= k_nn < 2 ^ 31).
  { pose proof (neighbor_count_bounds st i_point) as Hb.
    change (neighbor_count st i_point) with k_nn in Hb. lia. }
  destruct (search_start_eq k_min k_min_search Hm Hs k_nn Hb Hd) as [_ Hk0].
  fold k0 in Hk0. lia.
Qed.

(** C3, for a search whose first size [k0] is at least one neighbour
    ([1 <= max (k_min, k_min_search)], so that every compared
    eigenentropy is that of a non-empty neighbourhood).  The candidates
    are [k0], the multiples of [k_step] strictly between [k0] and [k_nn],
    and [k_nn].  The first candidate [k0] becomes the incumbent; a later
    candidate replaces the incumbent exactly when its eigenentropy is
    strictly lower; and the result that the whole search retains is that
    of a candidate whose eigenentropy is the least among all the
    candidates and strictly lower than that of every smaller candidate:
    on a tie the smaller size is kept. *)
Theorem search_keeps_first_minimum
  (eigen_solve : Matrix3f -> EigenSolver)
  (k_min k_step k_min_search : Z) (st : State) (i_point k_nn : Z) :
  int_range k_min -> int_range k_min_search -> int_range k_step ->
  1 <= k_step ->
  1 <= Z.max k_min k_min_search ->
  0 <= k_nn < 2 ^ 31 -> degenerate k_min k_nn = false ->
  let k0 := Z.min (Z.max k_min k_min_search) k_nn in
  let pca_at := neighborhood_pca eigen_solve (xyz st) (nn st) (nn_ptr st) i_point in
  let body := search_body eigen_solve k_step st i_point k0 k_nn in
  let candidate :=
    fun k => k = k0 \/ (k0 < k < k_nn /\ k mod k_step = 0) \/ k = k_nn in
  let s := search eigen_solve k_min k_step k_min_search st i_point k_nn in
  (forall s0, incumbent (body s0 k0) = Some (pca_at k0, k0)) /\
  (forall s0 pca k_optimal k,
      incumbent s0 = Some (pca, k_optimal) -> 1 <= k_optimal ->
      candidate k -> k <> k0 ->
      ((eigenentropy (pca_at k) < eigenentropy pca)%R ->
       incumbent (body s0 k) = Some (pca_at k, k)) /\
      (~ (eigenentropy (pca_at k) < eigenentropy pca)%R ->
       incumbent (body s0 k) = Some (pca, k_optimal))) /\
  exists k_optimal,
    incumbent s = Some (pca_at k_optimal, k_optimal) /\
    candidate k_optimal /\
    forall k, candidate k ->
              (eigenentropy (pca_at k_optimal) <= eigenentropy (pca_at k))%R /\
              (k < k_optimal ->
               (eigenentropy (pca_at k_optimal) < eigenentropy (pca_at k))%R).
Proof.
  intros Hm Hs Ht H1 Hfloor Hk Hd k0 pca_at body candidate s.
  destruct (search_start_eq k_min k_min_search Hm Hs k_nn Hk Hd) as [_ Hk0].
  pose proof (degenerate_false k_min k_nn Hm ltac:(lia) Hd) as [_ Hpos].
  fold k0 in Hk0.
  assert (Hk1 : 1 <= k0) by (unfold k0; lia).
  assert (Hcand : forall k, candidate k <-> In k (candidates k_step k0 k_nn)).
  { intros k. rewrite in_candidates by assumption. unfold candidate. lia. }
  split; [|split].
  - intros s0. subst body. now rewrite search_body_first.
  - intros s0 pca k_optimal k Hinc Hko Hc Hne. subst body.
    assert (Hskip : skipped k_step k0 k_nn k = false).
    { apply Hcand in Hc. unfold candidates in Hc. apply filter_In in Hc.
      now apply negb_true_iff. }
    assert (Hk3 : k <> 0) by (unfold candidate in Hc; lia).
    assert (Hk4 : k_optimal <> 0) by lia.
    rewrite (search_body_later _ _ _ _ _ _ _ _ _ _ Hskip Hne Hk3 Hk4 Hinc).
    cbn [incumbent]. unfold fltb.
    destruct (Rlt_dec _ _); split; intros; (reflexivity || contradiction).
  - destruct (search_adaptive_min eigen_solve k_min k_step k_min_search
                Hm Hs H1 st i_point k_nn Hk Hd Hfloor)
      as (ko & Hinc & Hin & Hmin).
    fold k0 pca_at s in Hinc, Hin, Hmin.
    exists ko. split; [exact Hinc|]. split; [now apply Hcand|].
    intros k Hc. apply Hmin. now apply Hcand.
Qed.

(** ** LocalPCA *)

Open Scope R_scope.

Lemma fltb_true (a b : float) : fltb a b = true <-> a < b.
Proof. unfold fltb. destruct (Rlt_dec a b); split; (easy || discriminate). Qed.

Lemma fltb_false (a b : float) : fltb a b = false <-> b <= a.
Proof.
  unfold fltb. destruct (Rlt_dec a b); split; try easy; try lra.
Qed.

Lemma std_max_clamp (a : float) : 0 <= std_max a 0 /\ a <= std_max a 0.
Proof.
  unfold std_max. destruct (fltb a 0) eqn:H.
  - apply fltb_true in H. lra.
  - apply fltb_false in H. lra.
Qed.

Lemma std_max_mono (a b : float) : b <= a -> std_max b 0 <= std_max a 0.
Proof.
  intros H. unfold std_max.
  destruct (fltb a 0) eqn:Ha, (fltb b 0) eqn:Hb;
    rewrite ?fltb_true, ?fltb_false in *; lra.
Qed.

Lemma orient_negative (v : Vector3f) :
  c2 v < 0 -> orient v = vec3 (- c0 v) (- c1 v) (- c2 v).
Proof. intros H. unfold orient. apply fltb_true in H. now rewrite H. Qed.

Lemma orient_nonnegative (v : Vector3f) : ~ c2 v < 0 -> orient v = v.
Proof.
  intros H. unfold orient. destruct (fltb (c2 v) 0) eqn:E; [|reflexivity].
  apply fltb_true in E. contradiction.
Qed.

Lemma orient_upward (v : Vector3f) : 0 <= c2 (orient v).
Proof.
  destruct (Rlt_dec (c2 v) 0) as [H|H].
  - rewrite orient_negative by assumption. cbn. lra.
  - rewrite orient_nonnegative by assumption. lra.
Qed.

Lemma indices_spec (ev : Vector3f) :
  exists i0 i1 i2 : Z,
    indices ev = [i0; i1; i2] /\
    (0 <= i0 <= 2 /\ 0 <= i1 <= 2 /\ 0 <= i2 <= 2)%Z /\
    (i0 <> i1 /\ i0 <> i2 /\ i1 <> i2) /\
    at3 ev i1 <= at3 ev i0 /\ at3 ev i2 <= at3 ev i1.
Proof.
  unfold indices, std_sort, fgtb.
  cbn [fold_left insertion_step rev app unguarded_linear_insert rev_append].
  repeat match goal with
         | |- context [fltb ?a ?b] =>
             let H := fresh "H" in
             destruct (fltb a b) eqn:H;
             cbn [insertion_step rev app unguarded_linear_insert rev_append]
         end;
    rewrite ?fltb_true, ?fltb_false in *;
    do 3 eexists; (split; [reflexivity|]);
    (split; [lia|]); (split; [repeat split; discriminate|]); lra.
Qed.

Lemma neighborhood_pca_spec (eigen_solve : Matrix3f -> EigenSolver)
  (xyz : Z -> float) (nn nn_ptr : Z -> Z) (i_point k_nn : Z) :
  let es := eigen_solve (cov xyz nn nn_ptr i_point k_nn) in
  let out := neighborhood_pca eigen_solve xyz nn nn_ptr i_point k_nn in
  exists i0 i1 i2 : Z,
    (0 <= i0 <= 2 /\ 0 <= i1 <= 2 /\ 0 <= i2 <= 2)%Z /\
    (i0 <> i1 /\ i0 <> i2 /\ i1 <> i2) /\
    (at3 (eigenvalues es) i1 <= at3 (eigenvalues es) i0 /\
     at3 (eigenvalues es) i2 <= at3 (eigenvalues es) i1) /\
    val out = vec3 (std_max (at3 (eigenvalues es) i0) 0)
                   (std_max (at3 (eigenvalues es) i1) 0)
                   (std_max (at3 (eigenvalues es) i2) 0) /\
    v0 out = orient (eigenvectors_col es i0) /\
    v1 out = orient (eigenvectors_col es i1) /\
    v2 out = orient (eigenvectors_col es i2) /\
    eigenentropy out = eigenentropy_of (val out).
Proof.
  intros es out. subst out. unfold neighborhood_pca. fold es.
  destruct (indices_spec (eigenvalues es))
    as (i0 & i1 & i2 & -> & Hr & Hd & Ho).
  exists i0, i1, i2. cbn [nth val v0 v1 v2 eigenentropy]. auto 10.
Qed.


(** C5: each returned eigenvector is the solver's eigenvector, negated as
    a whole when its third coordinate is negative and unchanged otherwise;
    its third coordinate is therefore non-negative. *)
Theorem eigenvectors_point_upward
  (eigen_solve : Matrix3f -> EigenSolver)
  (xyz : Z -> float) (nn nn_ptr : Z -> Z) (i_point k_nn : Z) :
  let es := eigen_solve (cov xyz nn nn_ptr i_point k_nn) in
  let out := neighborhood_pca eigen_solve xyz nn nn_ptr i_point k_nn in
  (exists i0 i1 i2 : Z,
      v0 out = orient (eigenvectors_col es i0) /\
      v1 out = orient (eigenvectors_col es i1) /\
      v2 out = orient (eigenvectors_col es i2)) /\
  (forall v, (c2 v < 0 -> orient v = vec3 (- c0 v) (- c1 v) (- c2 v)) /\
             (~ c2 v < 0 -> orient v = v)) /\
  0 <= c2 (v0 out) /\ 0 <= c2 (v1 out) /\ 0 <= c2 (v2 out).
Proof.
  intros es out.
  destruct (neighborhood_pca_spec eigen_solve xyz nn nn_ptr i_point k_nn)
    as (i0 & i1 & i2 & _ & _ & _ & _ & H0 & H1 & H2 & _).
  fold es out in H0, H1, H2.
  split; [exists i0, i1, i2; auto|].
  split; [intros v; split; [apply orient_negative|apply orient_nonnegative]|].
  rewrite H0, H1, H2. repeat split; apply orient_upward.
Qed.

(** ** Eigenentropy *)

Lemma ln_le_minus_1 (x : R) : 0 < x -> ln x <= x - 1.
Proof.
  intros Hx. destruct (Req_dec x 1) as [->|Hne].
  - rewrite ln_1. lra.
  - assert (H : 1 + (x - 1) < exp (x - 1)) by (apply exp_ineq1; lra).
    replace (1 + (x - 1)) with x in H by ring.
    apply ln_increasing in H; [|assumption].
    rewrite ln_exp in H. lra.
Qed.

Lemma ln_above_1 (x : R) : 1 < x -> 0 < ln x.
Proof. intros H. rewrite <- ln_1. apply ln_increasing; lra. Qed.

(** The facts on which the sign of the eigenentropy depends. *)
Lemma eigenentropy_of_bounds (val : Vector3f) :
  0 <= c0 val -> 0 <= c1 val -> 0 <= c2 val ->
  let val_sum := c0 val + c1 val + c2 val + epsilon in
  let e0 := c0 val / val_sum in
  let e1 := c1 val / val_sum in
  let e2 := c2 val / val_sum in
  0 < val_sum /\
  (0 < e0 + epsilon /\ 0 < e1 + epsilon /\ 0 < e2 + epsilon) /\
  - epsilon < eigenentropy_of val /\
  (e0 + epsilon <= 1 -> e1 + epsilon <= 1 -> e2 + epsilon <= 1 ->
   0 <= eigenentropy_of val).
Proof.
  intros H0 H1 H2 val_sum e0 e1 e2.
  assert (Heps : epsilon = 1 / 1000) by (unfold epsilon; lra).
  assert (Hsum : 0 < val_sum) by (unfold val_sum; lra).
  assert (Hr : 0 < / val_sum) by now apply Rinv_0_lt_compat.
  assert (Hone : / val_sum * (c0 val + c1 val + c2 val + epsilon) = 1)
    by (apply Rinv_l; unfold val_sum in Hsum; lra).
  assert (Hre : 0 < epsilon * / val_sum) by nra.
  assert (He0 : 0 <= e0) by (unfold e0, Rdiv; nra).
  assert (He1 : 0 <= e1) by (unfold e1, Rdiv; nra).
  assert (He2 : 0 <= e2) by (unfold e2, Rdiv; nra).
  assert (Hs : e0 + e1 + e2 < 1).
  { unfold e0, e1, e2, Rdiv. nra. }
  assert (L0 := ln_le_minus_1 (e0 + epsilon)).
  assert (L1 := ln_le_minus_1 (e1 + epsilon)).
  assert (L2 := ln_le_minus_1 (e2 + epsilon)).
  change (eigenentropy_of val)
    with (- e0 * ln (e0 + epsilon) - e1 * ln (e1 + epsilon)
          - e2 * ln (e2 + epsilon)).
  set (l0 := ln (e0 + epsilon)) in *.
  set (l1 := ln (e1 + epsilon)) in *.
  set (l2 := ln (e2 + epsilon)) in *.
  specialize (L0 ltac:(lra)). specialize (L1 ltac:(lra)).
  specialize (L2 ltac:(lra)).
  split; [exact Hsum|]. split; [lra|]. split.
  - assert (P0 : 0 <= e0 * (e0 + epsilon - 1 - l0)) by nra.
    assert (P1 : 0 <= e1 * (e1 + epsilon - 1 - l1)) by nra.
    assert (P2 : 0 <= e2 * (e2 + epsilon - 1 - l2)) by nra.
    assert (Q01 : 0 <= e0 * e1) by nra.
    assert (Q02 : 0 <= e0 * e2) by nra.
    assert (Q12 : 0 <= e1 * e2) by nra.
    set (S := e0 + e1 + e2) in *.
    assert (HS : 0 <= S) by (unfold S; lra).
    assert (Hsq : e0 * e0 + e1 * e1 + e2 * e2 <= S * S) by (unfold S; nra).
    assert (Hb : S * (S + epsilon - 1) < epsilon) by nra.
    unfold S in *. nra.
  - intros B0 B1 B2.
    assert (0 <= - e0 * l0) by nra.
    assert (0 <= - e1 * l1) by nra.
    assert (0 <= - e2 * l2) by nra.
    lra.
Qed.

(** C2, in exact arithmetic: for a neighbourhood of at least one point
    whose clamped eigenvalues are not all zero, the eigenentropy is
    [- (e0 ln (e0 + epsilon) + e1 ln (e1 + epsilon) + e2 ln (e2 + epsilon))]
    with a positive divisor [val_sum] and positive arguments of [log]; it
    is greater than [- epsilon], and it is non-negative whenever no
    [e_i + epsilon] exceeds 1.  (It is negative for the eigenvalues
    (900, 0, 0).) *)
Theorem eigenentropy_defined_and_bounded
  (eigen_solve : Matrix3f -> EigenSolver)
  (xyz : Z -> float) (nn nn_ptr : Z -> Z) (i_point k_nn : Z) :
  let out := neighborhood_pca eigen_solve xyz nn nn_ptr i_point k_nn in
  let val_sum := c0 (val out) + c1 (val out) + c2 (val out) + epsilon in
  let e0 := c0 (val out) / val_sum in
  let e1 := c1 (val out) / val_sum in
  let e2 := c2 (val out) / val_sum in
  (1 <= k_nn)%Z ->
  ~ (c0 (val out) = 0 /\ c1 (val out) = 0 /\ c2 (val out) = 0) ->
  eigenentropy out =
    - e0 * ln (e0 + epsilon) - e1 * ln (e1 + epsilon)
    - e2 * ln (e2 + epsilon) /\
  0 < val_sum /\
  (0 < e0 + epsilon /\ 0 < e1 + epsilon /\ 0 < e2 + epsilon) /\
  - epsilon < eigenentropy out /\
  (e0 + epsilon <= 1 -> e1 + epsilon <= 1 -> e2 + epsilon <= 1 ->
   0 <= eigenentropy out).
Proof.
  intros out val_sum e0 e1 e2 _ _.
  destruct (neighborhood_pca_spec eigen_solve xyz nn nn_ptr i_point k_nn)
    as (i0 & i1 & i2 & _ & _ & _ & Hval & _ & _ & _ & Hent).
  fold out in Hval, Hent.
  assert (H0 : 0 <= c0 (val out))
    by (rewrite Hval; apply std_max_clamp).
  assert (H1 : 0 <= c1 (val out))
    by (rewrite Hval; apply std_max_clamp).
  assert (H2 : 0 <= c2 (val out))
    by (rewrite Hval; apply std_max_clamp).
  rewrite Hent. split; [reflexivity|].
  exact (eigenentropy_of_bounds (val out) H0 H1 H2).
Qed.

(** ** FeatureDeriver *)

Lemma point_body_features
  (eigen_solve : Matrix3f -> EigenSolver)
  (k_min k_step k_min_search n_points : Z) (verbose : bool)
  (i_point : Z) (st st' : State) :
  degenerate k_min (neighbor_count st i_point) = false ->
  point_body eigen_solve k_min k_step k_min_search n_points verbose
    i_point st = Some st' ->
  exists pca k_optimal,
    incumbent (search eigen_solve k_min k_step k_min_search st i_point
                 (neighbor_count st i_point)) = Some (pca, k_optimal) /\
    forall n, (n < 11)%nat ->
              features st' (i_point * 11 + Z.of_nat n)%Z =
              nth n (geometric_features pca) 0.
Proof.
  intros Hd H. unfold point_body in H. rewrite Hd in H.
  destruct (incumbent _) as [[pca k_optimal]|]; [|discriminate].
  injection H as <-. exists pca, k_optimal. split; [reflexivity|].
  intros n Hn. cbn [features].
  replace (i_point * 11 + Z.of_nat n)%Z
    with (i_point * 11 + 0 + Z.of_nat n)%Z by lia.
  apply populate_inside. now rewrite geometric_features_length.
Qed.

(** C7: for a point that is not zero-filled, with [a0], [a1], [a2] the
    square roots of the eigenvalues of the retained PCA result, the output
    slice holds linearity, planarity and scattering in elements 0-2 and
    length, surface, volume and curvature in elements 7-10, each by its
    formula. *)
Theorem derived_features_formulas
  (eigen_solve : Matrix3f -> EigenSolver)
  (k_min k_step k_min_search n_points : Z) (verbose : bool)
  (i_point : Z) (st st' : State) :
  degenerate k_min (neighbor_count st i_point) = false ->
  point_body eigen_solve k_min k_step k_min_search n_points verbose
    i_point st = Some st' ->
  exists pca k_optimal,
    incumbent (search eigen_solve k_min k_step k_min_search st i_point
                 (neighbor_count st i_point)) = Some (pca, k_optimal) /\
    let a0 := sqrt (c0 (val pca)) in
    let a1 := sqrt (c1 (val pca)) in
    let a2 := sqrt (c2 (val pca)) in
    features st' (i_point * 11 + 0)%Z = (a0 - a1) / (a0 + 1e-3) /\
    features st' (i_point * 11 + 1)%Z = (a1 - a2) / (a0 + 1e-3) /\
    features st' (i_point * 11 + 2)%Z = a2 / (a0 + 1e-3) /\
    features st' (i_point * 11 + 7)%Z = a0 /\
    features st' (i_point * 11 + 8)%Z = sqrt (a0 * a1 + 1e-6) /\
    features st' (i_point * 11 + 9)%Z = Rpower (a0 * a1 * a2 + 1e-9) (1 / 3) /\
    features st' (i_point * 11 + 10)%Z = a2 / (a0 + a1 + a2 + 1e-3).
Proof.
  intros Hd H.
  destruct (point_body_features _ _ _ _ _ _ _ _ _ Hd H)
    as (pca & k_optimal & Hinc & Hf).
  exists pca, k_optimal. split; [exact Hinc|]. intros a0 a1 a2.
  pose proof (Hf 0%nat ltac:(lia)) as F0.
  pose proof (Hf 1%nat ltac:(lia)) as F1.
  pose proof (Hf 2%nat ltac:(lia)) as F2.
  pose proof (Hf 7%nat ltac:(lia)) as F7.
  pose proof (Hf 8%nat ltac:(lia)) as F8.
  pose proof (Hf 9%nat ltac:(lia)) as F9.
  pose proof (Hf 10%nat ltac:(lia)) as F10.
  repeat split; assumption.
Qed.

(** C8: for a point that is not zero-filled, element 3 of the output
    slice is [u.z / |u|] with [u = val[0] |v0| + val[1] |v1| + val[2] |v2|]
    (absolute values taken coordinate by coordinate) when [a0 > 0], and
    [0] when [a0 = 0]. *)
Theorem verticality_formula
  (eigen_solve : Matrix3f -> EigenSolver)
  (k_min k_step k_min_search n_points : Z) (verbose : bool)
  (i_point : Z) (st st' : State) :
  degenerate k_min (neighbor_count st i_point) = false ->
  point_body eigen_solve k_min k_step k_min_search n_points verbose
    i_point st = Some st' ->
  exists pca k_optimal,
    incumbent (search eigen_solve k_min k_step k_min_search st i_point
                 (neighbor_count st i_point)) = Some (pca, k_optimal) /\
    let a0 := sqrt (c0 (val pca)) in
    let l0 := c0 (val pca) in
    let l1 := c1 (val pca) in
    let l2 := c2 (val pca) in
    let ux := l0 * Rabs (c0 (v0 pca)) + l1 * Rabs (c0 (v1 pca))
              + l2 * Rabs (c0 (v2 pca)) in
    let uy := l0 * Rabs (c1 (v0 pca)) + l1 * Rabs (c1 (v1 pca))
              + l2 * Rabs (c1 (v2 pca)) in
    let uz := l0 * Rabs (c2 (v0 pca)) + l1 * Rabs (c2 (v1 pca))
              + l2 * Rabs (c2 (v2 pca)) in
    (0 < a0 ->
     features st' (i_point * 11 + 3)%Z = uz / sqrt (ux * ux + uy * uy + uz * uz)) /\
    (a0 = 0 -> features st' (i_point * 11 + 3)%Z = 0).
Proof.
  intros Hd H.
  destruct (point_body_features _ _ _ _ _ _ _ _ _ Hd H)
    as (pca & k_optimal & Hinc & Hf).
  exists pca, k_optimal. split; [exact Hinc|]. intros a0 l0 l1 l2 ux uy uz.
  pose proof (Hf 3%nat ltac:(lia)) as F3.
  change (nth 3 (geometric_features pca) 0) with (verticality_of pca) in F3.
  change (i_point * 11 + Z.of_nat 3)%Z with (i_point * 11 + 3)%Z in F3.
  rewrite F3. unfold verticality_of. fold a0.
  split; intros Ha.
  - apply fltb_true in Ha. rewrite Ha. reflexivity.
  - destruct (fltb 0 a0) eqn:E; [|reflexivity].
    apply fltb_true in E. lra.
Qed.

(** * The concrete cloud *)

Lemma line_cloud :
  cloud (xyz (line_state 2)) (nn (line_state 2)) (nn_ptr (line_state 2)) 0 2
  = [vec3 30 0 0; vec3 (-30) 0 0].
Proof. reflexivity. Qed.

Lemma line_covariance :
  let m := cov (xyz (line_state 2)) (nn (line_state 2))
             (nn_ptr (line_state 2)) 0 2 in
  m 0%Z 0%Z = 900 /\ m 1%Z 1%Z = 0 /\ m 2%Z 2%Z = 0.
Proof.
  unfold cov. rewrite line_cloud.
  cbv [colwise_mean rowwise_sub colwise_sum at3 map fold_right length
       c0 c1 c2 Z.eqb Pos.eqb Z.of_nat Pos.of_succ_nat Pos.succ].
  repeat split; lra.
Qed.

Lemma line_eigenentropy : eigenentropy_of (vec3 900 0 0) < 0.
Proof.
  unfold eigenentropy_of, epsilon. cbn [c0 c1 c2].
  assert (H : 0 < ln (900 / (900 + 0 + 0 + 0.001) + 0.001))
    by (apply ln_above_1; lra).
  set (l := ln (900 / (900 + 0 + 0 + 0.001) + 0.001)) in *.
  unfold Rdiv at 2 3. rewrite !Rmult_0_l.
  assert (0 < 900 / (900 + 0 + 0 + 0.001)) by lra.
  nra.
Qed.

(** With [diag_solver], a covariance whose diagonal is already in
    descending order and non-negative is returned as it is. *)
Lemma diag_solver_val (xyz : Z -> float) (nn nn_ptr : Z -> Z)
  (i_point k_nn : Z) (d0 d1 d2 : R) :
  cov xyz nn nn_ptr i_point k_nn 0%Z 0%Z = d0 ->
  cov xyz nn nn_ptr i_point k_nn 1%Z 1%Z = d1 ->
  cov xyz nn nn_ptr i_point k_nn 2%Z 2%Z = d2 ->
  d1 <= d0 -> d2 <= d1 -> 0 <= d2 ->
  val (neighborhood_pca diag_solver xyz nn nn_ptr i_point k_nn) = vec3 d0 d1 d2.
Proof.
  intros C0 C1 C2 H10 H21 H2.
  destruct (neighborhood_pca_spec diag_solver xyz nn nn_ptr i_point k_nn)
    as (i0 & i1 & i2 & Hr & Hd & Ho & Hval & _).
  rewrite Hval. clear Hval.
  unfold diag_solver in *. cbn [eigenvalues] in *.
  rewrite C0, C1, C2 in *. unfold at3 in *.
  assert (i0 = 0 \/ i0 = 1 \/ i0 = 2)%Z as [ -> | [ -> | -> ] ] by lia;
    assert (i1 = 0 \/ i1 = 1 \/ i1 = 2)%Z as [ -> | [ -> | -> ] ] by lia;
    assert (i2 = 0 \/ i2 = 1 \/ i2 = 2)%Z as [ -> | [ -> | -> ] ] by lia;
    cbn [Z.eqb Pos.eqb c0 c1 c2] in *; try lia;
    f_equal; unfold std_max, fltb; destruct (Rlt_dec _ _); lra.
Qed.

(** Against C2 as stated: the two points (30, 0, 0) and (-30, 0, 0) have
    the clamped eigenvalues (900, 0, 0), not all zero, and a negative
    eigenentropy. *)
Lemma eigenentropy_negative_on_a_line :
  let out := neighborhood_pca diag_solver (xyz (line_state 2))
               (nn (line_state 2)) (nn_ptr (line_state 2)) 0 2 in
  val out = vec3 900 0 0 /\ ~ 0 <= eigenentropy out.
Proof.
  intros out.
  destruct line_covariance as (C0 & C1 & C2).
  assert (Hv : val out = vec3 900 0 0)
    by (apply diag_solver_val; (assumption || lra)).
  split; [exact Hv|].
  change (eigenentropy out) with (eigenentropy_of (val out)). rewrite Hv.
  pose proof line_eigenentropy. lra.
Qed.

Lemma octahedron_cloud :
  cloud (xyz octahedron_state) (nn octahedron_state)
    (nn_ptr octahedron_state) 0 6
  = [vec3 1 0 0; vec3 (-1) 0 0; vec3 0 1 0; vec3 0 (-1) 0;
     vec3 0 0 1; vec3 0 0 (-1)].
Proof. reflexivity. Qed.

Lemma octahedron_covariance :
  let m := cov (xyz octahedron_state) (nn octahedron_state)
             (nn_ptr octahedron_state) 0 6 in
  m 0%Z 0%Z = 1 / 3 /\ m 1%Z 1%Z = 1 / 3 /\ m 2%Z 2%Z = 1 / 3.
Proof.
  unfold cov. rewrite octahedron_cloud.
  cbv [colwise_mean rowwise_sub colwise_sum at3 map fold_right length
       c0 c1 c2 Z.eqb Pos.eqb Z.of_nat Pos.of_succ_nat Pos.succ].
  repeat split; lra.
Qed.

(** Against C1 as stated: with [k_min = 5], [k_step = 3] and ten
    neighbours the sizes evaluated are 5, 6, 9 and 10: 6 is not of the
    form [5 + 3 j], and 8, which is, is skipped. *)
Lemma progression_from_k0_refuted :
  exists st',
    point_body diag_solver 5 3 0 1 false 0 (line_state 10) = Some st' /\
    pca_calls st' = [(0, 5); (0, 6); (0, 9); (0, 10)]%Z /\
    ~ (forall k, In (0%Z, k) (pca_calls st') <-> spec_sizes 5 3 0 10 k).
Proof.
  destruct (point_body_adaptive diag_solver 5 3 0
              ltac:(unfold int_range; lia) ltac:(unfold int_range; lia)
              ltac:(lia) 1 false 0 (line_state 10)
              ltac:(reflexivity) ltac:(reflexivity))
    as (st' & Hbody & Hcalls).
  exists st'. split; [exact Hbody|].
  assert (Hc : pca_calls st' = [(0, 5); (0, 6); (0, 9); (0, 10)]%Z)
    by (rewrite Hcalls; reflexivity).
  split; [exact Hc|]. rewrite Hc. intros H.
  destruct (proj1 (H 6%Z)) as [H6|(j & Hj & H6 & _)].
  - cbn. auto.
  - discriminate.
  - lia.
Qed.

(** * Instances *)

Lemma eigenentropy_defined_and_bounded_witness :
  let out := neighborhood_pca diag_solver (xyz octahedron_state)
               (nn octahedron_state) (nn_ptr octahedron_state) 0 6 in
  (1 <= 6)%Z /\
  val out = vec3 (1 / 3) (1 / 3) (1 / 3) /\
  ~ (c0 (val out) = 0 /\ c1 (val out) = 0 /\ c2 (val out) = 0) /\
  - epsilon < eigenentropy out /\ 0 <= eigenentropy out.
Proof.
  intros out.
  destruct octahedron_covariance as (C0 & C1 & C2).
  assert (Hv : val out = vec3 (1 / 3) (1 / 3) (1 / 3))
    by (apply diag_solver_val; (assumption || lra)).
  assert (Hk : (1 <= 6)%Z) by lia.
  assert (Hnz : ~ (c0 (val out) = 0 /\ c1 (val out) = 0 /\ c2 (val out) = 0))
    by (rewrite Hv; cbn [c0 c1 c2]; lra).
  split; [exact Hk|]. split; [exact Hv|]. split; [exact Hnz|].
  destruct (eigenentropy_defined_and_bounded diag_solver
              (xyz octahedron_state) (nn octahedron_state)
              (nn_ptr octahedron_state) 0 6 Hk Hnz)
    as (_ & _ & _ & Hlow & Hnn).
  fold out in Hlow, Hnn. split; [exact Hlow|].
  rewrite Hv in Hnn. cbn [c0 c1 c2] in Hnn.
  apply Hnn; unfold epsilon; lra.
Defined.

Lemma point_writes_only_its_slice_witness :
  exists st',
    point_body diag_solver 1 0 0 2 false 0 (line_state 2) = Some st' /\
    xyz st' = xyz (line_state 2) /\ nn st' = nn (line_state 2) /\
    nn_ptr st' = nn_ptr (line_state 2) /\
    forall a, ~ (11 * 0 <= a <= 11 * 0 + 10)%Z ->
              features st' a = features (line_state 2) a.
Proof.
  eexists. split; [reflexivity|].
  apply (point_writes_only_its_slice diag_solver 1 0 0 2 false 0
           (line_state 2)).
  reflexivity.
Defined.

Lemma degenerate_point_zero_filled_witness :
  int_range 3 /\
  (neighbor_count (line_state 2) 0 < 3 \/ neighbor_count (line_state 2) 0 = 0)%Z /\
  exists st',
    point_body diag_solver 3 1 0 2 false 0 (line_state 2) = Some st' /\
    (forall j, (0 <= j < 11)%Z -> features st' (0 * 11 + j)%Z = 0) /\
    (forall a, ~ (0 * 11 <= a <= 0 * 11 + 10)%Z ->
               features st' a = features (line_state 2) a) /\
    pca_calls st' = pca_calls (line_state 2).
Proof.
  assert (Hr : int_range 3) by (unfold int_range; lia).
  assert (Hk : (neighbor_count (line_state 2) 0 < 3
                \/ neighbor_count (line_state 2) 0 = 0)%Z)
    by (left; reflexivity).
  split; [exact Hr|]. split; [exact Hk|].
  exact (degenerate_point_zero_filled diag_solver 3 1 0 2 false 0
           (line_state 2) Hr Hk).
Defined.

Lemma negative_k_min_zero_fills_all_witness :
  (int_range (-1) /\ -1 < 0 /\ 0 <= 2 < 2 ^ 31)%Z /\
  (forall s i_point, degenerate (-1) (neighbor_count s i_point) = true) /\
  exists st',
    compute_geometric_features diag_solver (-1) 1 0 2 false (line_state 2)
    = Some st' /\
    (forall i_point j, (0 <= i_point < 2)%Z -> (0 <= j < 11)%Z ->
                       features st' (i_point * 11 + j)%Z = 0) /\
    pca_calls st' = pca_calls (line_state 2).
Proof.
  assert (Hr : int_range (-1)) by (unfold int_range; lia).
  assert (Hn : (-1 < 0)%Z) by lia.
  assert (Hp : (0 <= 2 < 2 ^ 31)%Z) by lia.
  split; [auto|].
  exact (negative_k_min_zero_fills_all diag_solver (-1) 1 0 2 false
           (line_state 2) Hr Hn Hp).
Defined.

Lemma adaptive_search_sizes_witness :
  (int_range 5 /\ int_range 0 /\ int_range 3 /\ 1 <= 3)%Z /\
  (neighbor_count (line_state 10) 0 < 2 ^ 31)%Z /\
  degenerate 5 (neighbor_count (line_state 10) 0) = false /\
  exists st' sizes,
    point_body diag_solver 5 3 0 1 false 0 (line_state 10) = Some st' /\
    pca_calls st' = pca_calls (line_state 10) ++ map (pair 0%Z) sizes /\
    StronglySorted Z.lt sizes /\
    forall k, In k sizes <->
              (k = 5 \/ (5 < k < 10 /\ k mod 3 = 0) \/ k = 10)%Z.
Proof.
  assert (H5 : int_range 5) by (unfold int_range; lia).
  assert (H0 : int_range 0) by (unfold int_range; lia).
  assert (H3 : int_range 3) by (unfold int_range; lia).
  assert (Hs : (1 <= 3)%Z) by lia.
  assert (Hk : (neighbor_count (line_state 10) 0 < 2 ^ 31)%Z) by reflexivity.
  assert (Hd : degenerate 5 (neighbor_count (line_state 10) 0) = false)
    by reflexivity.
  split; [auto|]. split; [exact Hk|]. split; [exact Hd|].
  exact (adaptive_search_sizes diag_solver 5 3 0 1 false 0 (line_state 10)
           H5 H0 H3 Hs Hk Hd).
Defined.

Lemma search_keeps_first_minimum_witness :
  (int_range 5 /\ int_range 0 /\ int_range 3 /\ 1 <= 3)%Z /\
  (1 <= Z.max 5 0)%Z /\
  (0 <= 10 < 2 ^ 31)%Z /\ degenerate 5 10 = false /\
  let st := line_state 10 in
  let pca_at := neighborhood_pca diag_solver (xyz st) (nn st) (nn_ptr st) 0 in
  let s := search diag_solver 5 3 0 st 0 10 in
  exists k_optimal,
    incumbent s = Some (pca_at k_optimal, k_optimal) /\
    (k_optimal = 5 \/ k_optimal = 6 \/ k_optimal = 9 \/ k_optimal = 10)%Z /\
    forall k, (k = 5 \/ k = 6 \/ k = 9 \/ k = 10)%Z ->
              eigenentropy (pca_at k_optimal) <= eigenentropy (pca_at k) /\
              ((k < k_optimal)%Z ->
               eigenentropy (pca_at k_optimal) < eigenentropy (pca_at k)).
Proof.
  assert (H5 : int_range 5) by (unfold int_range; lia).
  assert (H0 : int_range 0) by (unfold int_range; lia).
  assert (H3 : int_range 3) by (unfold int_range; lia).
  assert (Hs : (1 <= 3)%Z) by lia.
  assert (Hf : (1 <= Z.max 5 0)%Z) by lia.
  assert (Hk : (0 <= 10 < 2 ^ 31)%Z) by lia.
  assert (Hd : degenerate 5 10 = false) by reflexivity.
  split; [auto|]. split; [exact Hf|]. split; [exact Hk|].
  split; [exact Hd|]. intros st pca_at s.
  destruct (search_keeps_first_minimum diag_solver 5 3 0 (line_state 10) 0 10
              H5 H0 H3 Hs Hf Hk Hd)
    as (_ & _ & ko & Hinc & Hc & Hmin).
  exists ko. split; [exact Hinc|].
  change (Z.min (Z.max 5 0) 10) with 5%Z in Hc, Hmin.
  split.
  - destruct Hc as [Hc|[[Hr Hc]|Hc]]; [lia| |lia].
    assert (ko = 6 \/ ko = 7 \/ ko = 8 \/ ko = 9)%Z
      as [ -> | [ -> | [ -> | -> ] ] ] by lia;
      (discriminate Hc || lia).
  - intros k Hk'. apply Hmin.
    destruct Hk' as [ -> | [ -> | [ -> | -> ] ] ]; [now left| | |now right; right];
      right; left; (split; [lia|reflexivity]).
Defined.

Lemma derived_features_formulas_witness :
  degenerate 1 (neighbor_count (line_state 2) 0) = false /\
  exists st' pca k_optimal,
    point_body diag_solver 1 0 0 2 false 0 (line_state 2) = Some st' /\
    incumbent (search diag_solver 1 0 0 (line_state 2) 0
                 (neighbor_count (line_state 2) 0)) = Some (pca, k_optimal) /\
    features st' (0 * 11 + 7)%Z = sqrt (c0 (val pca)).
Proof.
  split; [reflexivity|]. eexists.
  destruct (derived_features_formulas diag_solver 1 0 0 2 false 0
              (line_state 2) _ eq_refl eq_refl)
    as (pca & k_optimal & Hinc & _ & _ & _ & H7 & _).
  exists pca, k_optimal. split; [reflexivity|]. split; assumption.
Defined.

Lemma verticality_formula_witness :
  degenerate 1 (neighbor_count (line_state 2) 0) = false /\
  exists st' pca k_optimal,
    point_body diag_solver 1 0 0 2 false 0 (line_state 2) = Some st' /\
    incumbent (search diag_solver 1 0 0 (line_state 2) 0
                 (neighbor_count (line_state 2) 0)) = Some (pca, k_optimal) /\
    (sqrt (c0 (val pca)) = 0 -> features st' (0 * 11 + 3)%Z = 0).
Proof.
  split; [reflexivity|]. eexists.
  destruct (verticality_formula diag_solver 1 0 0 2 false 0
              (line_state 2) _ eq_refl eq_refl)
    as (pca & k_optimal & Hinc & _ & H3).
  exists pca, k_optimal. split; [reflexivity|]. split; assumption.
Defined.

(** * The whole run *)

Section RunFacts.
Variable eigen_solve : Matrix3f -> EigenSolver.
Variables (k_min k_step k_min_search n_points : Z) (verbose : bool).

Local Abbreviation body :=
  (point_body eigen_solve k_min k_step k_min_search n_points verbose).
Local Abbreviation run :=
  (run_points eigen_solve k_min k_step k_min_search n_points verbose).
Local Abbreviation values :=
  (point_values eigen_solve k_min k_step k_min_search).
Local Abbreviation slot :=
  (slot_value eigen_solve k_min k_step k_min_search).

Open Scope Z_scope.

Lemma same_inputs_refl (st : State) : same_inputs st st.
Proof. repeat split. Qed.

Lemma same_inputs_trans (s1 s2 s3 : State) :
  same_inputs s1 s2 -> same_inputs s2 s3 -> same_inputs s1 s3.
Proof.
  intros (A1 & A2 & A3) (B1 & B2 & B3). repeat split; congruence.
Qed.

(** The values stored for a point depend on the input buffers only. *)
Lemma point_values_inputs (s st : State) (i_point : Z) :
  same_inputs s st -> values s i_point = values st i_point.
Proof.
  intros (Hx & Hn & Hp).
  unfold point_values, neighbor_count, search, search_body.
  rewrite Hx, Hn, Hp. reflexivity.
Qed.

Lemma slot_value_inputs (s st : State) (a : Z) :
  same_inputs s st -> slot s a = slot st a.
Proof.
  intros H. unfold slot_value. now rewrite (point_values_inputs s st).
Qed.

Lemma point_values_length (st : State) (i_point : Z) (vs : list float) :
  values st i_point = Some vs -> length vs = 11%nat.
Proof.
  unfold point_values. destruct (degenerate _ _).
  - intros [= <-]. reflexivity.
  - destruct (incumbent _) as [[pca k]|]; [|discriminate].
    intros [= <-]. apply geometric_features_length.
Qed.

Lemma point_body_values (i_point : Z) (st st' : State) :
  body i_point st = Some st' ->
  exists vs,
    values st i_point = Some vs /\
    features st' = populate (i_point * 11 + 0) vs (features st) /\
    same_inputs st' st.
Proof.
  unfold point_body, point_values. destruct (degenerate _ _).
  - intros [= <-]. eexists. split; [reflexivity|].
    split; [reflexivity|repeat split].
  - destruct (incumbent _) as [[pca k]|]; [|discriminate].
    intros [= <-]. eexists. split; [reflexivity|].
    split; [reflexivity|repeat split].
Qed.

Lemma point_body_defined (i_point : Z) (st : State) :
  values st i_point <> None -> exists st', body i_point st = Some st'.
Proof.
  unfold point_body, point_values. destruct (degenerate _ _).
  - intros _. eexists. reflexivity.
  - destruct (incumbent _) as [[pca k]|]; [|congruence].
    intros _. eexists. reflexivity.
Qed.

Lemma slice_index (i a : Z) :
  i * 11 <= a <= i * 11 + 10 -> a / 11 = i /\ a mod 11 = a - i * 11.
Proof.
  intros H.
  assert (Hq : a / 11 = i)
    by (symmetry; apply (Z.div_unique_pos a 11 i (a - i * 11)); lia).
  split; [exact Hq|]. pose proof (Z.div_mod a 11 ltac:(lia)). lia.
Qed.

Lemma in_slices_iff (points : list Z) (a : Z) :
  in_slices points a = true <-> In (a / 11) points /\ 0 <= a mod 11 <= 10.
Proof.
  unfold in_slices. rewrite existsb_exists. split.
  - intros (i & Hi & H). apply andb_true_iff in H.
    rewrite !Z.leb_le in H. destruct (slice_index i a H) as [-> Hm].
    split; [exact Hi|lia].
  - intros [Hi Hm]. exists (a / 11). split; [exact Hi|].
    pose proof (Z.div_mod a 11 ltac:(lia)).
    apply andb_true_iff. rewrite !Z.leb_le. lia.
Qed.

(** After a run, an element of a visited slice holds the value of its
    point, computed from the input buffers; the others are as before. *)
Lemma run_points_spec (points : list Z) :
  forall st st',
    run points st = Some st' ->
    same_inputs st' st /\
    (forall i, In i points -> values st i <> None) /\
    forall a, features st' a =
              if in_slices points a then slot st a else features st a.
Proof.
  induction points as [|i ps IH]; intros st st' H.
  - injection H as <-. split; [apply same_inputs_refl|].
    split; [intros i []|reflexivity].
  - rewrite run_points_cons in H.
    destruct (body i st) as [s1|] eqn:Hb; [|discriminate].
    destruct (point_body_values i st s1 Hb) as (vs & Hv & Hf & Hin).
    destruct (IH s1 st' H) as (Hin' & Hdef & Hfeat).
    split; [now apply same_inputs_trans with s1|].
    split.
    { intros j [<-|Hj]; [congruence|].
      rewrite <- (point_values_inputs s1 st j Hin). now apply Hdef. }
    intros a. rewrite Hfeat, (slot_value_inputs s1 st a Hin).
    change (in_slices (i :: ps) a)
      with (((i * 11 <=? a) && (a <=? i * 11 + 10)) || in_slices ps a).
    destruct (in_slices ps a); [now rewrite orb_true_r|].
    rewrite orb_false_r, Hf.
    pose proof (point_values_length st i vs Hv) as Hlen.
    destruct ((i * 11 <=? a) && (a <=? i * 11 + 10)) eqn:Hi.
    + apply andb_true_iff in Hi. rewrite !Z.leb_le in Hi.
      destruct (slice_index i a Hi) as [Hq Hm].
      unfold slot_value. rewrite Hq, Hv, Hm.
      replace a with (i * 11 + 0 + Z.of_nat (Z.to_nat (a - i * 11))) at 1
        by lia.
      apply populate_inside. lia.
    + apply populate_outside. rewrite Hlen.
      apply andb_false_iff in Hi. rewrite !Z.leb_gt in Hi. lia.
Qed.

Lemma run_points_defined (points : list Z) :
  forall st,
    (forall i, In i points -> values st i <> None) ->
    exists st', run points st = Some st'.
Proof.
  induction points as [|i ps IH]; intros st Hdef.
  - exists st. reflexivity.
  - rewrite run_points_cons.
    destruct (point_body_defined i st (Hdef i (or_introl eq_refl)))
      as (s1 & Hb).
    rewrite Hb.
    destruct (point_body_values i st s1 Hb) as (_ & _ & _ & Hin).
    apply IH. intros j Hj.
    rewrite (point_values_inputs s1 st j Hin). apply Hdef. now right.
Qed.
End RunFacts.

Section CounterFacts.
Variable eigen_solve : Matrix3f -> EigenSolver.
Variables (k_min k_step k_min_search n_points : Z) (verbose : bool).

Local Abbreviation body :=
  (point_body eigen_solve k_min k_step k_min_search n_points verbose).
Local Abbreviation run :=
  (run_points eigen_solve k_min k_step k_min_search n_points verbose).

Open Scope Z_scope.

Lemma computed_points_inputs (s st : State) (points : list Z) :
  same_inputs s st ->
  computed_points k_min s points = computed_points k_min st points.
Proof.
  intros (_ & _ & Hp). unfold computed_points, neighbor_count.
  now rewrite Hp.
Qed.

Lemma report_quiet (s : Z) :
  verbose = false \/ 0 < s < 10000 -> report n_points verbose s = [].
Proof.
  intros [->|H]; unfold report.
  - now rewrite andb_false_r.
  - rewrite Z.mod_small by lia.
    destruct (Z.eqb_spec s 0); [lia|reflexivity].
Qed.

(** The progress counter advances by one for each point that is not
    zero-filled, and nothing is printed before it reaches 10000. *)
Lemma run_points_counter (points : list Z) :
  forall st st',
    run points st = Some st' ->
    0 <= s_point st ->
    s_point st + Z.of_nat (length points) < 2 ^ 64 ->
    s_point st' =
      s_point st + Z.of_nat (length (computed_points k_min st points)) /\
    (verbose = false \/ s_point st + Z.of_nat (length points) < 10000 ->
     cout st' = cout st).
Proof.
  induction points as [|i ps IH]; intros st st' H H0 Hb.
  - injection H as <-. cbn. split; [lia|reflexivity].
  - rewrite run_points_cons in H.
    destruct (body i st) as [s1|] eqn:Hb1; [|discriminate].
    destruct (point_body_values _ _ _ _ _ _ i st s1 Hb1)
      as (_ & _ & _ & Hin).
    cbn [length] in Hb |- *.
    unfold point_body in Hb1. unfold computed_points. cbn [filter].
    fold (computed_points k_min st ps).
    rewrite <- (computed_points_inputs s1 st ps Hin).
    destruct (degenerate k_min (neighbor_count st i)) eqn:Hd.
    + injection Hb1 as <-. cbn [negb].
      destruct (IH _ st' H) as [Hs Hc]; cbn [zero_fill s_point cout] in *;
        try lia.
      split; [exact Hs|]. intros Hq. apply Hc. destruct Hq; [now left|right; lia].
    + destruct (incumbent _) as [[pca k]|]; [|discriminate].
      injection Hb1 as <-. cbn [negb length].
      assert (Hs1 : to_size_t (s_point st + 1) = s_point st + 1)
        by (apply to_size_t_small; lia).
      destruct (IH _ st' H) as [Hs Hc]; cbn [s_point cout] in *;
        rewrite ?Hs1; try lia.
      rewrite Hs1 in Hs, Hc.
      split; [lia|]. intros Hq. rewrite Hc.
      * rewrite report_quiet; [apply app_nil_r|].
        destruct Hq; [now left|right; lia].
      * destruct Hq; [now left|right; lia].
Qed.
End CounterFacts.

Section WholeRun.
Variable eigen_solve : Matrix3f -> EigenSolver.
Variables (k_min k_step k_min_search : Z).

Open Scope Z_scope.

Lemma point_values_total (st : State) (i_point : Z) :
  int_range k_min -> int_range k_min_search ->
  neighbor_count st i_point < 2 ^ 31 ->
  point_values eigen_solve k_min k_step k_min_search st i_point <> None.
Proof.
  intros Hm Hs Hk. unfold point_values.
  destruct (degenerate k_min (neighbor_count st i_point)) eqn:Hd;
    [discriminate|].
  destruct (Z.ltb_spec k_step 1) as [Hlt|Hge].
  - unfold search. apply Z.ltb_lt in Hlt. rewrite Hlt. discriminate.
  - pose proof (neighbor_count_bounds st i_point) as Hb.
    destruct (search_adaptive eigen_solve k_min k_step k_min_search
                Hm Hs Hge st i_point (neighbor_count st i_point)
                ltac:(lia) Hd)
      as (_ & ko & -> & _).
    discriminate.
Qed.

(** The run of [compute_geometric_features] seen through [run_points]. *)
Lemma compute_run (n_points : Z) (verbose : bool) (st st' : State) :
  compute_geometric_features eigen_solve k_min k_step k_min_search
    n_points verbose st = Some st' ->
  exists st0 s,
    same_inputs st0 st /\ features st0 = features st /\
    s_point st0 = 0 /\ cout st0 = cout st /\
    run_points eigen_solve k_min k_step k_min_search n_points verbose
      (range 0 (to_size_t n_points)) st0 = Some s /\
    same_inputs st' s /\ features st' = features s /\
    s_point st' = s_point s /\
    cout st' = cout s ++ (if verbose then [Endl] else []).
Proof.
  unfold compute_geometric_features.
  match goal with
  | |- context [run_points _ _ _ _ _ _ ?l ?s0] =>
      destruct (run_points eigen_solve k_min k_step k_min_search
                  n_points verbose l s0) as [s|] eqn:Hrun;
      [|discriminate]; intros [= <-]; exists s0, s
  end.
  repeat split; exact Hrun.
Qed.

Lemma run_compute (n_points : Z) (verbose : bool) (st : State) :
  (forall i, In i (range 0 (to_size_t n_points)) ->
             point_values eigen_solve k_min k_step k_min_search st i <> None) ->
  exists st',
    compute_geometric_features eigen_solve k_min k_step k_min_search
      n_points verbose st = Some st'.
Proof.
  intros Hdef. unfold compute_geometric_features.
  match goal with
  | |- context [run_points _ _ _ _ _ _ ?l ?s0] =>
      destruct (run_points_defined eigen_solve k_min k_step k_min_search
                  n_points verbose l s0) as (s & ->)
  end.
  - intros i Hi.
    rewrite (point_values_inputs eigen_solve k_min k_step k_min_search _ st);
      [now apply Hdef|repeat split].
  - eexists. reflexivity.
Qed.

Lemma in_slices_points (n a : Z) :
  0 <= n -> in_slices (range 0 n) a = true <-> 0 <= a < 11 * n.
Proof.
  intros Hn. rewrite in_slices_iff, in_range.
  pose proof (Z.div_mod a 11 ltac:(lia)).
  pose proof (Z.mod_pos_bound a 11 ltac:(lia)).
  split; intros; nia.
Qed.
End WholeRun.

(** X1: when the offsets give every point fewer than 2^31 neighbours,
    [compute_geometric_features] runs to completion, whatever the
    coordinates, the neighbour indices and the solver. *)
Theorem run_defined_for_bounded_neighbourhoods
  (eigen_solve : Matrix3f -> EigenSolver)
  (k_min k_step k_min_search n_points : Z) (verbose : bool) (st : State) :
  int_range k_min -> int_range k_min_search ->
  (0 <= n_points < 2 ^ 31)%Z ->
  (forall i, 0 <= i < n_points -> neighbor_count st i < 2 ^ 31)%Z ->
  exists st',
    compute_geometric_features eigen_solve k_min k_step k_min_search
      n_points verbose st = Some st'.
Proof.
  intros Hm Hs Hn Hk. apply run_compute. intros i Hi.
  rewrite to_size_t_small in Hi by lia. apply in_range in Hi.
  apply point_values_total; try assumption. apply Hk. lia.
Qed.

(** X2: after the run, the output slice of each point holds exactly what
    the loop body of that point alone stores when started on the initial
    buffers: no point's result depends on another point's computation. *)
Theorem final_slice_is_point_computation
  (eigen_solve : Matrix3f -> EigenSolver)
  (k_min k_step k_min_search n_points : Z) (verbose : bool)
  (st st' : State) :
  (0 <= n_points < 2 ^ 31)%Z ->
  compute_geometric_features eigen_solve k_min k_step k_min_search
    n_points verbose st = Some st' ->
  forall i, (0 <= i < n_points)%Z ->
    exists s_i,
      point_body eigen_solve k_min k_step k_min_search n_points verbose
        i st = Some s_i /\
      forall j, (0 <= j < 11)%Z ->
                features st' (i * 11 + j)%Z = features s_i (i * 11 + j)%Z.
Proof.
  intros Hn H i Hi.
  destruct (compute_run _ _ _ _ _ _ _ _ H)
    as (st0 & s & Hin0 & _ & _ & _ & Hrun & _ & Hf & _).
  rewrite to_size_t_small in Hrun by lia.
  destruct (run_points_spec _ _ _ _ _ _ _ _ _ Hrun) as (_ & Hdef & Hfeat).
  assert (Hv : point_values eigen_solve k_min k_step k_min_search st i <> None).
  { rewrite <- (point_values_inputs _ _ _ _ st0 st i Hin0).
    apply Hdef, in_range. lia. }
  destruct (point_body_defined eigen_solve k_min k_step k_min_search
              n_points verbose i st Hv) as (s_i & Hb).
  exists s_i. split; [exact Hb|]. intros j Hj.
  destruct (point_body_values _ _ _ _ _ _ _ _ _ Hb) as (vs & Hvs & Hfi & _).
  pose proof (point_values_length _ _ _ _ _ _ _ Hvs) as Hlen.
  rewrite Hf, Hfeat, Hfi.
  assert (Hs : in_slices (range 0 n_points) (i * 11 + j)%Z = true)
    by (apply in_slices_points; lia).
  rewrite Hs. unfold slot_value.
  destruct (slice_index i (i * 11 + j)%Z ltac:(lia)) as [-> ->].
  rewrite (point_values_inputs _ _ _ _ st0 st i Hin0), Hvs.
  replace (i * 11 + j)%Z with (i * 11 + 0 + Z.of_nat (Z.to_nat j))%Z
    at 2 by lia.
  rewrite populate_inside by lia. f_equal. lia.
Qed.

(** X3: the run leaves [xyz], [nn] and [nn_ptr] as they were, and changes
    no element of the output buffer outside [features[0 .. 11*n_points - 1]]. *)
Theorem run_frame
  (eigen_solve : Matrix3f -> EigenSolver)
  (k_min k_step k_min_search n_points : Z) (verbose : bool)
  (st st' : State) :
  (0 <= n_points < 2 ^ 31)%Z ->
  compute_geometric_features eigen_solve k_min k_step k_min_search
    n_points verbose st = Some st' ->
  xyz st' = xyz st /\ nn st' = nn st /\ nn_ptr st' = nn_ptr st /\
  forall a, ~ (0 <= a < 11 * n_points)%Z -> features st' a = features st a.
Proof.
  intros Hn H.
  destruct (compute_run _ _ _ _ _ _ _ _ H)
    as (st0 & s & Hin0 & Hf0 & _ & _ & Hrun & Hin' & Hf & _).
  rewrite to_size_t_small in Hrun by lia.
  destruct (run_points_spec _ _ _ _ _ _ _ _ _ Hrun) as (Hin & _ & Hfeat).
  pose proof (same_inputs_trans _ _ _ Hin'
                (same_inputs_trans _ _ _ Hin Hin0)) as (Hx & Hnn & Hp).
  repeat split; try assumption.
  intros a Ha. rewrite Hf, Hfeat, Hf0.
  destruct (in_slices (range 0 n_points) a) eqn:Hs; [|reflexivity].
  apply in_slices_points in Hs; lia.
Qed.

Lemma to_size_t_bounds (z : Z) : (0 <= to_size_t z < 2 ^ 64)%Z.
Proof. unfold to_size_t. apply Z.mod_pos_bound. lia. Qed.

Lemma range_length (lo hi : Z) :
  Z.of_nat (length (range lo hi)) = Z.max 0 (hi - lo).
Proof. unfold range. rewrite length_map, length_seq. lia. Qed.

(** X4: visiting the same points in another order (as another schedule
    of the parallel loop would) also runs to completion and leaves the
    same output buffer. *)
Theorem order_of_points_immaterial
  (eigen_solve : Matrix3f -> EigenSolver)
  (k_min k_step k_min_search n_points : Z) (verbose : bool)
  (points points' : list Z) (st s : State) :
  (forall i, In i points <-> In i points') ->
  run_points eigen_solve k_min k_step k_min_search n_points verbose
    points st = Some s ->
  exists s',
    run_points eigen_solve k_min k_step k_min_search n_points verbose
      points' st = Some s' /\
    forall a, features s' a = features s a.
Proof.
  intros Hsame Hrun.
  destruct (run_points_spec _ _ _ _ _ _ _ _ _ Hrun) as (_ & Hdef & Hfeat).
  destruct (run_points_defined eigen_solve k_min k_step k_min_search
              n_points verbose points' st) as (s' & Hrun').
  { intros i Hi. apply Hdef, Hsame, Hi. }
  exists s'. split; [exact Hrun'|]. intros a.
  destruct (run_points_spec _ _ _ _ _ _ _ _ _ Hrun') as (_ & _ & Hfeat').
  rewrite Hfeat, Hfeat'.
  assert (Hs : in_slices points' a = in_slices points a).
  { destruct (in_slices points a) eqn:E.
    - apply in_slices_iff. apply in_slices_iff in E.
      destruct E as [E1 E2]. split; [now apply Hsame|exact E2].
    - destruct (in_slices points' a) eqn:E'; [|reflexivity].
      apply in_slices_iff in E'. destruct E' as [E1 E2].
      assert (in_slices points a = true)
        by (apply in_slices_iff; split; [now apply Hsame|exact E2]).
      congruence. }
  now rewrite Hs.
Qed.

(** X5: running [compute_geometric_features] again on the buffers it has
    produced completes and changes no element of the output buffer. *)
Theorem second_run_same_features
  (eigen_solve : Matrix3f -> EigenSolver)
  (k_min k_step k_min_search n_points : Z) (verbose : bool)
  (st st' : State) :
  compute_geometric_features eigen_solve k_min k_step k_min_search
    n_points verbose st = Some st' ->
  exists st'',
    compute_geometric_features eigen_solve k_min k_step k_min_search
      n_points verbose st' = Some st'' /\
    forall a, features st'' a = features st' a.
Proof.
  intros H.
  destruct (compute_run _ _ _ _ _ _ _ _ H)
    as (st0 & s & Hin0 & Hf0 & _ & _ & Hrun & Hin' & Hf & _).
  destruct (run_points_spec _ _ _ _ _ _ _ _ _ Hrun) as (Hin & Hdef & Hfeat).
  assert (Hall : same_inputs st' st0)
    by (apply same_inputs_trans with s; assumption).
  destruct (run_compute eigen_solve k_min k_step k_min_search n_points
              verbose st') as (st'' & H2).
  { intros i Hi.
    rewrite (point_values_inputs _ _ _ _ st' st0 i Hall). now apply Hdef. }
  exists st''. split; [exact H2|]. intros a.
  destruct (compute_run _ _ _ _ _ _ _ _ H2)
    as (st1 & s2 & Hin1 & Hf1 & _ & _ & Hrun2 & _ & Hf2 & _).
  destruct (run_points_spec _ _ _ _ _ _ _ _ _ Hrun2) as (_ & _ & Hfeat2).
  rewrite Hf2, Hfeat2, Hf1, Hf, Hfeat.
  destruct (in_slices _ a); [|reflexivity].
  apply slot_value_inputs. apply same_inputs_trans with st'; assumption.
Qed.

(** X6: [verbose] only affects what is printed: the quiet run completes
    whenever the verbose one does, leaves the same output buffer, and
    prints nothing. *)
Theorem verbose_only_prints
  (eigen_solve : Matrix3f -> EigenSolver)
  (k_min k_step k_min_search n_points : Z) (st s : State) :
  compute_geometric_features eigen_solve k_min k_step k_min_search
    n_points true st = Some s ->
  exists s',
    compute_geometric_features eigen_solve k_min k_step k_min_search
      n_points false st = Some s' /\
    (forall a, features s' a = features s a) /\
    cout s' = cout st.
Proof.
  intros H.
  destruct (compute_run _ _ _ _ _ _ _ _ H)
    as (st0 & s1 & Hin0 & Hf0 & _ & _ & Hrun & _ & Hf & _).
  destruct (run_points_spec _ _ _ _ _ _ _ _ _ Hrun) as (_ & Hdef & Hfeat).
  destruct (run_compute eigen_solve k_min k_step k_min_search n_points
              false st) as (s' & H2).
  { intros i Hi.
    rewrite <- (point_values_inputs _ _ _ _ st0 st i Hin0). now apply Hdef. }
  exists s'. split; [exact H2|].
  destruct (compute_run _ _ _ _ _ _ _ _ H2)
    as (st1 & s2 & Hin1 & Hf1 & Hs1 & Hc1 & Hrun2 & _ & Hf2 & _ & Hc2).
  destruct (run_points_spec _ _ _ _ _ _ _ _ _ Hrun2) as (_ & _ & Hfeat2).
  split.
  - intros a. rewrite Hf2, Hfeat2, Hf1, Hf, Hfeat, Hf0.
    destruct (in_slices _ a); [|reflexivity].
    apply slot_value_inputs. apply same_inputs_trans with st; [exact Hin1|].
    destruct Hin0 as (A & B & C). repeat split; congruence.
  - pose proof (to_size_t_bounds n_points) as Hb.
    destruct (run_points_counter _ _ _ _ _ _ _ _ _ Hrun2) as [_ Hq].
    + lia.
    + rewrite Hs1, range_length. lia.
    + rewrite Hc2, Hq, Hc1 by now left. apply app_nil_r.
Qed.

(** X7: at the end of a (sequential) run the progress counter [s_point]
    is the number of points that were not zero-filled: the [continue] of
    a zero-filled point skips the increment. *)
Theorem progress_counts_computed_points
  (eigen_solve : Matrix3f -> EigenSolver)
  (k_min k_step k_min_search n_points : Z) (verbose : bool)
  (st st' : State) :
  (0 <= n_points < 2 ^ 31)%Z ->
  compute_geometric_features eigen_solve k_min k_step k_min_search
    n_points verbose st = Some st' ->
  s_point st' =
    Z.of_nat (length (computed_points k_min st (range 0 n_points))).
Proof.
  intros Hn H.
  destruct (compute_run _ _ _ _ _ _ _ _ H)
    as (st0 & s & Hin0 & _ & Hs0 & _ & Hrun & _ & _ & Hs & _).
  rewrite to_size_t_small in Hrun by lia.
  destruct (run_points_counter _ _ _ _ _ _ _ _ _ Hrun) as [Hc _].
  - lia.
  - rewrite Hs0, range_length. lia.
  - rewrite Hs, Hc, Hs0, (computed_points_inputs k_min st0 st _ Hin0).
    reflexivity.
Qed.

(** X8: with fewer than 10000 points no progress line is printed: a
    verbose run prints the final end of line only, a quiet run nothing. *)
Theorem no_progress_line_below_10000
  (eigen_solve : Matrix3f -> EigenSolver)
  (k_min k_step k_min_search n_points : Z) (verbose : bool)
  (st st' : State) :
  (0 <= n_points < 10000)%Z ->
  compute_geometric_features eigen_solve k_min k_step k_min_search
    n_points verbose st = Some st' ->
  cout st' = cout st ++ (if verbose then [Endl] else []).
Proof.
  intros Hn H.
  destruct (compute_run _ _ _ _ _ _ _ _ H)
    as (st0 & s & _ & _ & Hs0 & Hc0 & Hrun & _ & _ & _ & Hc).
  rewrite to_size_t_small in Hrun by lia.
  destruct (run_points_counter _ _ _ _ _ _ _ _ _ Hrun) as [_ Hq].
  - lia.
  - rewrite Hs0, range_length. lia.
  - rewrite Hc, Hq, Hc0; [reflexivity|].
    right. rewrite Hs0, range_length. lia.
Qed.

(** * More on the search *)

Open Scope Z_scope.

Lemma range_empty_le (lo hi : Z) : hi <= lo -> range lo hi = [].
Proof.
  intros H. unfold range.
  replace (Z.to_nat (hi - lo)) with 0%nat by lia. reflexivity.
Qed.

Lemma range_one (k : Z) : range k (k + 1) = [k].
Proof. rewrite range_cons by lia. unfold range.
  replace (Z.to_nat (k + 1 - (k + 1))) with 0%nat by lia. reflexivity. Qed.

Lemma range_snoc (lo hi : Z) :
  lo <= hi -> range lo (hi + 1) = range lo hi ++ [hi].
Proof.
  intros H. unfold range.
  replace (Z.to_nat (hi + 1 - lo)) with (Z.to_nat (hi - lo) + 1)%nat by lia.
  rewrite seq_app, map_app. cbn [seq map]. do 2 f_equal. lia.
Qed.

Lemma candidates_single (k_step k_nn : Z) :
  candidates k_step k_nn k_nn = [k_nn].
Proof.
  unfold candidates. rewrite range_one. cbn [filter].
  unfold skipped. now rewrite Z.ltb_irrefl.
Qed.

(** One more multiple of [s] is met exactly when [k] is one. *)
Lemma div_step (s k : Z) :
  0 < s -> k / s - (k - 1) / s = if k mod s =? 0 then 1 else 0.
Proof.
  intros Hs. pose proof (Z.div_mod k s ltac:(lia)) as Hk.
  pose proof (Z.mod_pos_bound k s Hs) as Hr.
  destruct (Z.eqb_spec (k mod s) 0) as [H0|H0].
  - rewrite <- (Z.div_unique_pos (k - 1) s (k / s - 1) (s - 1)); lia.
  - rewrite <- (Z.div_unique_pos (k - 1) s (k / s) (k mod s - 1)); lia.
Qed.

Lemma count_multiples (s : Z) (n : nat) :
  0 < s ->
  forall lo,
    Z.of_nat (length (filter (fun k => k mod s =? 0)
                        (range lo (lo + Z.of_nat n))))
    = (lo + Z.of_nat n - 1) / s - (lo - 1) / s.
Proof.
  intros Hs. induction n as [|n IH]; intros lo.
  - rewrite range_empty_le by lia. cbn. rewrite Z.add_0_r. lia.
  - rewrite range_cons by lia. cbn [filter].
    replace (lo + Z.of_nat (S n)) with (lo + 1 + Z.of_nat n) by lia.
    pose proof (IH (lo + 1)) as IH1.
    replace (lo + 1 - 1) with lo in IH1 by lia.
    pose proof (div_step s lo Hs) as Hd.
    destruct (lo mod s =? 0); cbn [length]; lia.
Qed.

(** The number of sizes that the search evaluates. *)
Lemma candidates_length (k_step k0 k_nn : Z) :
  int_range k_step -> 1 <= k_step -> k0 < k_nn ->
  Z.of_nat (length (candidates k_step k0 k_nn))
  = 2 + ((k_nn - 1) / k_step - k0 / k_step).
Proof.
  intros Hr Hs Hlt. unfold candidates.
  rewrite range_cons, range_snoc by lia. cbn [filter].
  rewrite filter_app. cbn [filter].
  unfold skipped at 1 3. rewrite Z.ltb_irrefl, Z.eqb_refl.
  rewrite !andb_false_r. cbn [negb andb length]. rewrite length_app. cbn [length].
  rewrite (filter_ext_in _ (fun k => k mod k_step =? 0)).
  - pose proof (count_multiples k_step (Z.to_nat (k_nn - (k0 + 1)))
                  ltac:(lia) (k0 + 1)) as Hc.
    replace (k0 + 1 + Z.of_nat (Z.to_nat (k_nn - (k0 + 1)))) with k_nn
      in Hc by lia.
    replace (k0 + 1 - 1) with k0 in Hc by lia. lia.
  - intros k Hk. apply in_range in Hk. unfold skipped, int_range in *.
    rewrite to_size_t_small by lia.
    destruct (Z.ltb_spec k0 k); [|lia].
    destruct (Z.eqb_spec k k_nn); [lia|].
    cbn [andb negb]. now rewrite andb_true_r, negb_involutive.
Qed.

Lemma point_body_direct
  (eigen_solve : Matrix3f -> EigenSolver)
  (k_min k_step k_min_search n_points : Z) (verbose : bool)
  (i_point : Z) (st : State) :
  k_step < 1 ->
  degenerate k_min (neighbor_count st i_point) = false ->
  exists st',
    point_body eigen_solve k_min k_step k_min_search n_points verbose
      i_point st = Some st' /\
    pca_calls st' = pca_calls st ++ [(i_point, neighbor_count st i_point)] /\
    features st' =
      populate (i_point * 11 + 0)
        (geometric_features
           (neighborhood_pca eigen_solve (xyz st) (nn st) (nn_ptr st)
              i_point (neighbor_count st i_point)))
        (features st).
Proof.
  intros Hs Hd. unfold point_body, search. rewrite Hd.
  apply Z.ltb_lt in Hs. rewrite Hs. cbn [incumbent evaluated map].
  eexists. split; [reflexivity|]. split; reflexivity.
Qed.

(** X9: with the search disabled ([k_step < 1]) a point that is not
    zero-filled has [neighborhood_pca] called once, on all its [k_nn]
    neighbours, and its slice holds the features of that result; neither
    [k_min_search] nor a bound on [k_nn] plays a part. *)
Theorem search_disabled_full_neighbourhood
  (eigen_solve : Matrix3f -> EigenSolver)
  (k_min k_step k_min_search n_points : Z) (verbose : bool)
  (i_point : Z) (st : State) :
  k_step < 1 ->
  degenerate k_min (neighbor_count st i_point) = false ->
  let k_nn := neighbor_count st i_point in
  let pca := neighborhood_pca eigen_solve (xyz st) (nn st) (nn_ptr st)
               i_point k_nn in
  exists st',
    point_body eigen_solve k_min k_step k_min_search n_points verbose
      i_point st = Some st' /\
    pca_calls st' = pca_calls st ++ [(i_point, k_nn)] /\
    forall n, (n < 11)%nat ->
              features st' (i_point * 11 + Z.of_nat n) =
              nth n (geometric_features pca) 0%R.
Proof.
  intros Hs Hd k_nn pca.
  destruct (point_body_direct eigen_solve k_min k_step k_min_search
              n_points verbose i_point st Hs Hd) as (st' & Hb & Hc & Hf).
  exists st'. split; [exact Hb|]. split; [exact Hc|].
  intros n Hn. rewrite Hf.
  replace (i_point * 11 + Z.of_nat n) with (i_point * 11 + 0 + Z.of_nat n)
    by lia.
  apply populate_inside. now rewrite geometric_features_length.
Qed.

(** X10: with [k_step = 1] and a first size of at least one neighbour
    ([1 <= max (k_min, k_min_search)]) the search is exhaustive: every
    size from [k0] to [k_nn] is evaluated, and the retained result has the
    least eigenentropy of them all, at the smallest such size. *)
Theorem stride_one_is_exhaustive
  (eigen_solve : Matrix3f -> EigenSolver)
  (k_min k_min_search : Z) (st : State) (i_point k_nn : Z) :
  int_range k_min -> int_range k_min_search ->
  1 <= Z.max k_min k_min_search ->
  0 <= k_nn < 2 ^ 31 -> degenerate k_min k_nn = false ->
  let k0 := Z.min (Z.max k_min k_min_search) k_nn in
  let pca_at := neighborhood_pca eigen_solve (xyz st) (nn st) (nn_ptr st)
                  i_point in
  let s := search eigen_solve k_min 1 k_min_search st i_point k_nn in
  evaluated s = range k0 (k_nn + 1) /\
  exists k_optimal,
    incumbent s = Some (pca_at k_optimal, k_optimal) /\
    k0 <= k_optimal <= k_nn /\
    forall k, k0 <= k <= k_nn ->
              (eigenentropy (pca_at k_optimal) <= eigenentropy (pca_at k))%R /\
              (k < k_optimal ->
               (eigenentropy (pca_at k_optimal) < eigenentropy (pca_at k))%R).
Proof.
  intros Hm Hs Hfloor Hk Hd k0 pca_at s.
  destruct (search_adaptive eigen_solve k_min 1 k_min_search Hm Hs
              ltac:(lia) st i_point k_nn Hk Hd)
    as (Hev & _).
  destruct (search_adaptive_min eigen_solve k_min 1 k_min_search Hm Hs
              ltac:(lia) st i_point k_nn Hk Hd Hfloor)
    as (ko & Hinc & Hin & Hmin).
  fold k0 pca_at s in Hev, Hinc, Hin, Hmin.
  assert (Hone : int_range 1) by (unfold int_range; lia).
  assert (Hall : forall k, In k (candidates 1 k0 k_nn) <-> k0 <= k <= k_nn).
  { intros k. rewrite in_candidates by (assumption || lia).
    rewrite Z.mod_1_r. lia. }
  split.
  - rewrite Hev. unfold candidates.
    rewrite (filter_ext_in _ (fun _ => true)).
    + induction (range k0 (k_nn + 1)) as [|x l IH]; [reflexivity|].
      cbn [filter]. now rewrite IH.
    + intros k _. unfold skipped.
      rewrite to_size_t_small, Z.mod_1_r by lia.
      cbn. now rewrite andb_false_r.
  - exists ko. split; [exact Hinc|]. split; [now apply Hall|].
    intros k Hk'. apply Hmin, Hall, Hk'.
Qed.

Lemma search_floor_at_k_nn
  (eigen_solve : Matrix3f -> EigenSolver)
  (k_min k_step k_min_search : Z) (st : State) (i_point k_nn : Z) :
  int_range k_min -> int_range k_min_search -> 1 <= k_step ->
  0 <= k_nn < 2 ^ 31 -> degenerate k_min k_nn = false ->
  k_nn <= Z.max k_min k_min_search ->
  search eigen_solve k_min k_step k_min_search st i_point k_nn
  = search eigen_solve k_min 0 k_min_search st i_point k_nn.
Proof.
  intros Hm Hs H1 Hk Hd Hfloor. unfold search.
  destruct (Z.ltb_spec k_step 1) as [Hlt|_]; [lia|].
  destruct (search_start_eq k_min k_min_search Hm Hs k_nn Hk Hd) as [-> _].
  replace (Z.min (Z.max k_min k_min_search) k_nn) with k_nn by lia.
  rewrite range_one. cbn [fold_left Z.ltb Z.compare].
  now rewrite search_body_first.
Qed.

(** X11: when [max(k_min, k_min_search)] is at least the neighbour
    count, the search has the single candidate [k_nn], and the loop body
    does exactly what it does with the search disabled. *)
Theorem floor_at_neighbour_count_disables_search
  (eigen_solve : Matrix3f -> EigenSolver)
  (k_min k_step k_min_search n_points : Z) (verbose : bool)
  (i_point : Z) (st : State) :
  int_range k_min -> int_range k_min_search -> 1 <= k_step ->
  let k_nn := neighbor_count st i_point in
  k_nn < 2 ^ 31 -> degenerate k_min k_nn = false ->
  k_nn <= Z.max k_min k_min_search ->
  point_body eigen_solve k_min k_step k_min_search n_points verbose
    i_point st
  = point_body eigen_solve k_min 0 k_min_search n_points verbose
      i_point st.
Proof.
  intros Hm Hs H1 k_nn Hk Hd Hfloor.
  assert (Hb : 0 <= k_nn < 2 ^ 31).
  { pose proof (neighbor_count_bounds st i_point) as Hb.
    change (neighbor_count st i_point) with k_nn in Hb. lia. }
  unfold point_body. fold k_nn.
  now rewrite (search_floor_at_k_nn eigen_solve k_min k_step k_min_search
                 st i_point k_nn Hm Hs H1 Hb Hd Hfloor).
Qed.

(** X12: with a first size of at least one neighbour
    ([1 <= max (k_min, k_min_search)]) the adaptive search never retains
    a result of higher eigenentropy than the full neighbourhood [k_nn],
    which is what the disabled search returns, nor than the first
    candidate [k0]. *)
Theorem search_not_worse_than_boundaries
  (eigen_solve : Matrix3f -> EigenSolver)
  (k_min k_step k_min_search : Z) (st : State) (i_point k_nn : Z) :
  int_range k_min -> int_range k_min_search -> int_range k_step ->
  1 <= k_step ->
  1 <= Z.max k_min k_min_search ->
  0 <= k_nn < 2 ^ 31 -> degenerate k_min k_nn = false ->
  let k0 := Z.min (Z.max k_min k_min_search) k_nn in
  let pca_at := neighborhood_pca eigen_solve (xyz st) (nn st) (nn_ptr st)
                  i_point in
  exists pca k_optimal,
    incumbent (search eigen_solve k_min k_step k_min_search st i_point k_nn)
    = Some (pca, k_optimal) /\
    (eigenentropy pca <= eigenentropy (pca_at k_nn))%R /\
    (eigenentropy pca <= eigenentropy (pca_at k0))%R.
Proof.
  intros Hm Hs Ht H1 Hfloor Hk Hd k0 pca_at.
  destruct (search_adaptive_min eigen_solve k_min k_step k_min_search Hm Hs H1
              st i_point k_nn Hk Hd Hfloor)
    as (ko & Hinc & _ & Hmin).
  fold k0 pca_at in Hinc, Hmin.
  destruct (search_start_eq k_min k_min_search Hm Hs k_nn Hk Hd) as [_ Hk0].
  fold k0 in Hk0.
  exists (pca_at ko), ko. split; [exact Hinc|]. split.
  - apply Hmin, in_candidates; try assumption. lia.
  - apply Hmin, in_candidates; try assumption. lia.
Qed.

(** X13: if the search is disabled, or if [max(k_min, k_min_search)] is
    at least 1, every call of [neighborhood_pca] made for a point is for
    that point and for a size [k] with [1 <= k <= k_nn]: a non-empty
    prefix of the point's own neighbour list. *)
Theorem evaluated_sizes_within_neighbourhood
  (eigen_solve : Matrix3f -> EigenSolver)
  (k_min k_step k_min_search n_points : Z) (verbose : bool)
  (i_point : Z) (st : State) :
  int_range k_min -> int_range k_min_search -> int_range k_step ->
  let k_nn := neighbor_count st i_point in
  k_nn < 2 ^ 31 -> degenerate k_min k_nn = false ->
  k_step < 1 \/ 1 <= Z.max k_min k_min_search ->
  exists st' sizes,
    point_body eigen_solve k_min k_step k_min_search n_points verbose
      i_point st = Some st' /\
    pca_calls st' = pca_calls st ++ map (pair i_point) sizes /\
    forall k, In k sizes -> 1 <= k <= k_nn.
Proof.
  intros Hm Hs Ht k_nn Hk Hd Hcase.
  assert (Hb : 0 <= k_nn < 2 ^ 31).
  { pose proof (neighbor_count_bounds st i_point) as Hb.
    change (neighbor_count st i_point) with k_nn in Hb. lia. }
  destruct (degenerate_false k_min k_nn Hm ltac:(lia) Hd) as [Hkm Hpos].
  destruct (Z_lt_le_dec k_step 1) as [Hlt|Hge].
  - destruct (point_body_direct eigen_solve k_min k_step k_min_search
                n_points verbose i_point st Hlt Hd) as (st' & Hbody & Hc & _).
    exists st', [k_nn]. split; [exact Hbody|]. split; [exact Hc|].
    intros k [<-|[]]. lia.
  - destruct Hcase as [Hlt|Hfloor]; [lia|].
    destruct (point_body_adaptive eigen_solve k_min k_step k_min_search
                Hm Hs Hge n_points verbose i_point st Hk Hd)
      as (st' & Hbody & Hc).
    exists st'. eexists. split; [exact Hbody|]. split; [exact Hc|].
    intros k Hin. apply in_candidates in Hin; try assumption. lia.
Qed.

(** X14: with the search enabled and neither [k_min] nor [k_min_search]
    positive, the first call of [neighborhood_pca] for a point that is not
    zero-filled is for the size 0, an empty neighbourhood. *)
Theorem empty_neighbourhood_evaluated
  (eigen_solve : Matrix3f -> EigenSolver)
  (k_min k_step k_min_search n_points : Z) (verbose : bool)
  (i_point : Z) (st : State) :
  int_range k_min -> int_range k_min_search -> 1 <= k_step ->
  let k_nn := neighbor_count st i_point in
  k_nn < 2 ^ 31 -> degenerate k_min k_nn = false ->
  Z.max k_min k_min_search <= 0 ->
  exists st' sizes,
    point_body eigen_solve k_min k_step k_min_search n_points verbose
      i_point st = Some st' /\
    pca_calls st' = pca_calls st ++ (i_point, 0) :: map (pair i_point) sizes.
Proof.
  intros Hm Hs H1 k_nn Hk Hd Hfloor.
  assert (Hb : 0 <= k_nn < 2 ^ 31).
  { pose proof (neighbor_count_bounds st i_point) as Hb.
    change (neighbor_count st i_point) with k_nn in Hb. lia. }
  destruct (degenerate_false k_min k_nn Hm ltac:(lia) Hd) as [Hkm Hpos].
  destruct (point_body_adaptive eigen_solve k_min k_step k_min_search
              Hm Hs H1 n_points verbose i_point st Hk Hd)
    as (st' & Hbody & Hc).
  fold k_nn in Hc.
  replace (Z.min (Z.max k_min k_min_search) k_nn) with 0 in Hc by lia.
  rewrite candidates_head in Hc by lia.
  exists st'. eexists. split; [exact Hbody|]. exact Hc.
Qed.


(** X15: the adaptive search of a point calls [neighborhood_pca] once
    when [k0 = k_nn], and otherwise [2 + (k_nn - 1) / k_step - k0 / k_step]
    times (integer divisions): the two boundary sizes and the multiples of
    [k_step] between them. *)
Theorem number_of_evaluations
  (eigen_solve : Matrix3f -> EigenSolver)
  (k_min k_step k_min_search n_points : Z) (verbose : bool)
  (i_point : Z) (st : State) :
  int_range k_min -> int_range k_min_search -> int_range k_step ->
  1 <= k_step ->
  let k_nn := neighbor_count st i_point in
  k_nn < 2 ^ 31 -> degenerate k_min k_nn = false ->
  let k0 := Z.min (Z.max k_min k_min_search) k_nn in
  exists st' sizes,
    point_body eigen_solve k_min k_step k_min_search n_points verbose
      i_point st = Some st' /\
    pca_calls st' = pca_calls st ++ map (pair i_point) sizes /\
    Z.of_nat (length sizes) =
      if k0 =? k_nn then 1
      else 2 + ((k_nn - 1) / k_step - k0 / k_step).
Proof.
  intros Hm Hs Ht H1 k_nn Hk Hd k0.
  assert (Hb : 0 <= k_nn < 2 ^ 31).
  { pose proof (neighbor_count_bounds st i_point) as Hb.
    change (neighbor_count st i_point) with k_nn in Hb. lia. }
  destruct (search_start_eq k_min k_min_search Hm Hs k_nn Hb Hd) as [_ Hk0].
  fold k0 in Hk0.
  destruct (point_body_adaptive eigen_solve k_min k_step k_min_search
              Hm Hs H1 n_points verbose i_point st Hk Hd)
    as (st' & Hbody & Hc).
  exists st', (candidates k_step k0 k_nn).
  split; [exact Hbody|]. split; [exact Hc|].
  destruct (Z.eqb_spec k0 k_nn) as [->|Hne].
  - now rewrite candidates_single.
  - apply candidates_length; try assumption. lia.
Qed.

(** * More on the covariance *)

Open Scope R_scope.

Lemma colwise_sum_ext (f g : Vector3f -> float) (m : list Vector3f) :
  (forall r, In r m -> f r = g r) -> colwise_sum f m = colwise_sum g m.
Proof.
  induction m as [|r m IH]; intros H; cbn [colwise_sum fold_right].
  - reflexivity.
  - fold (colwise_sum f m) (colwise_sum g m).
    rewrite IH by (intros r' Hr'; apply H; now right).
    rewrite (H r) by now left. reflexivity.
Qed.

Lemma colwise_sum_nonneg (f : Vector3f -> float) (m : list Vector3f) :
  (forall r, 0 <= f r) -> 0 <= colwise_sum f m.
Proof.
  intros H. induction m as [|r m IH]; cbn [colwise_sum fold_right].
  - lra.
  - fold (colwise_sum f m). specialize (H r). lra.
Qed.

Lemma colwise_sum_map (f : Vector3f -> float) (g : Vector3f -> Vector3f)
  (m : list Vector3f) :
  colwise_sum f (map g m) = colwise_sum (fun r => f (g r)) m.
Proof.
  induction m as [|r m IH]; cbn [colwise_sum fold_right map].
  - reflexivity.
  - fold (colwise_sum f (map g m)) (colwise_sum (fun r => f (g r)) m).
    now rewrite IH.
Qed.

(** The quadratic form of the sums of products is a sum of squares. *)
Lemma products_quadratic_form (m : list Vector3f) (w : Vector3f) :
  quadratic_form (fun a b => colwise_sum (fun r => at3 r a * at3 r b) m) w
  = colwise_sum
      (fun r => (c0 w * c0 r + c1 w * c1 r + c2 w * c2 r)
                * (c0 w * c0 r + c1 w * c1 r + c2 w * c2 r)) m.
Proof.
  unfold quadratic_form, at3. cbn [Z.eqb Pos.eqb].
  induction m as [|r m IH]; cbn [colwise_sum fold_right].
  - ring.
  - unfold colwise_sum in IH. rewrite <- IH. ring.
Qed.

Lemma quadratic_form_scale (m : Matrix3f) (c : R) (w : Vector3f) :
  quadratic_form (fun a b => m a b / c) w = quadratic_form m w / c.
Proof. unfold quadratic_form, Rdiv. ring. Qed.

(** X16: for a neighbourhood of at least one point, the matrix handed to
    the eigen solver is symmetric and positive semi-definite
    ([w^T cov w >= 0] for every [w]). *)
Theorem covariance_symmetric_positive
  (xyz : Z -> float) (nn nn_ptr : Z -> Z) (i_point k_nn : Z) :
  (1 <= k_nn)%Z ->
  (forall a b, cov xyz nn nn_ptr i_point k_nn a b
               = cov xyz nn nn_ptr i_point k_nn b a) /\
  forall w, 0 <= quadratic_form (cov xyz nn nn_ptr i_point k_nn) w.
Proof.
  intros Hk. split.
  - intros a b. unfold cov. f_equal.
    apply colwise_sum_ext. intros r _. ring.
  - intros w. unfold cov.
    rewrite quadratic_form_scale, products_quadratic_form.
    apply Rmult_le_pos.
    + apply colwise_sum_nonneg. intros r.
      apply (Rle_0_sqr (c0 w * c0 r + c1 w * c1 r + c2 w * c2 r)).
    + apply Rlt_le, Rinv_0_lt_compat, IZR_lt. lia.
Qed.

Lemma translate_row (t : Vector3f) (xyz : Z -> float) (idx : Z) :
  vec3 (translate t xyz (3 * idx)%Z) (translate t xyz (3 * idx + 1)%Z)
       (translate t xyz (3 * idx + 2)%Z)
  = vec3 (xyz (3 * idx)%Z + c0 t) (xyz (3 * idx + 1)%Z + c1 t)
         (xyz (3 * idx + 2)%Z + c2 t).
Proof.
  unfold translate, at3.
  replace ((3 * idx) mod 3)%Z with 0%Z
    by (apply (Z.mod_unique_pos _ 3 idx 0); lia).
  replace ((3 * idx + 1) mod 3)%Z with 1%Z
    by (apply (Z.mod_unique_pos _ 3 idx 1); lia).
  replace ((3 * idx + 2) mod 3)%Z with 2%Z
    by (apply (Z.mod_unique_pos _ 3 idx 2); lia).
  reflexivity.
Qed.

Lemma colwise_sum_shift (f : Vector3f -> float) (c : R) (m : list Vector3f) :
  colwise_sum (fun r => f r + c) m
  = colwise_sum f m + IZR (Z.of_nat (length m)) * c.
Proof.
  induction m as [|r m IH]; cbn [colwise_sum fold_right length].
  - cbn. ring.
  - fold (colwise_sum (fun r => f r + c) m) (colwise_sum f m).
    rewrite IH, Nat2Z.inj_succ, succ_IZR. ring.
Qed.

(** Centring removes a translation. *)
Lemma centered_translate (t : Vector3f) (m : list Vector3f) :
  let shift := fun r => vec3 (c0 r + c0 t) (c1 r + c1 t) (c2 r + c2 t) in
  rowwise_sub (map shift m) (colwise_mean (map shift m))
  = rowwise_sub m (colwise_mean m).
Proof.
  intros shift. destruct m as [|r0 m0] eqn:E; [reflexivity|].
  rewrite <- E. unfold rowwise_sub, colwise_mean.
  rewrite map_map, length_map, !colwise_sum_map.
  cbn [c0 c1 c2 shift]. rewrite !colwise_sum_shift.
  assert (Hn : IZR (Z.of_nat (length m)) <> 0).
  { rewrite E. cbn [length]. apply not_0_IZR. lia. }
  apply map_ext. intros r. cbn [c0 c1 c2]. f_equal; field; exact Hn.
Qed.

(** X17: in exact arithmetic the result of [neighborhood_pca] does not
    change when every point of the cloud is moved by the same vector. *)
Theorem neighborhood_pca_translation_invariant
  (eigen_solve : Matrix3f -> EigenSolver)
  (xyz : Z -> float) (nn nn_ptr : Z -> Z) (i_point k_nn : Z)
  (t : Vector3f) :
  neighborhood_pca eigen_solve (translate t xyz) nn nn_ptr i_point k_nn
  = neighborhood_pca eigen_solve xyz nn nn_ptr i_point k_nn.
Proof.
  assert (Hc : cloud (translate t xyz) nn nn_ptr i_point k_nn
               = map (fun r => vec3 (c0 r + c0 t) (c1 r + c1 t) (c2 r + c2 t))
                   (cloud xyz nn nn_ptr i_point k_nn)).
  { unfold cloud. rewrite map_map. apply map_ext. intros j.
    cbv zeta. now rewrite translate_row. }
  unfold neighborhood_pca, cov. rewrite Hc, centered_translate.
  reflexivity.
Qed.

Lemma colwise_sum_constant (f : Vector3f -> float) (c : R)
  (m : list Vector3f) :
  (forall r, In r m -> f r = c) ->
  colwise_sum f m = IZR (Z.of_nat (length m)) * c.
Proof.
  induction m as [|r m IH]; intros H; cbn [colwise_sum fold_right length].
  - cbn. ring.
  - fold (colwise_sum f m).
    rewrite IH by (intros r' Hr'; apply H; now right).
    rewrite (H r) by now left.
    rewrite Nat2Z.inj_succ, succ_IZR. ring.
Qed.

Lemma cov_of_coincident
  (xyz : Z -> float) (nn nn_ptr : Z -> Z) (i_point k_nn : Z)
  (p : Vector3f) :
  (1 <= k_nn)%Z ->
  (forall i_nei, (0 <= i_nei < k_nn)%Z ->
     let idx_nei := nn (nn_ptr i_point + i_nei)%Z in
     xyz (3 * idx_nei)%Z = c0 p /\ xyz (3 * idx_nei + 1)%Z = c1 p /\
     xyz (3 * idx_nei + 2)%Z = c2 p) ->
  forall a b, cov xyz nn nn_ptr i_point k_nn a b = 0.
Proof.
  intros Hk Hsame a b.
  assert (Hrows : forall r, In r (cloud xyz nn nn_ptr i_point k_nn) ->
                            c0 r = c0 p /\ c1 r = c1 p /\ c2 r = c2 p).
  { intros r Hr. unfold cloud in Hr. apply in_map_iff in Hr.
    destruct Hr as (j & <- & Hj). apply in_range in Hj.
    cbn [c0 c1 c2]. apply Hsame. lia. }
  assert (Hlen : IZR (Z.of_nat (length (cloud xyz nn nn_ptr i_point k_nn)))
                 <> 0).
  { unfold cloud. rewrite length_map, range_length. apply not_0_IZR. lia. }
  unfold cov. set (cl := cloud xyz nn nn_ptr i_point k_nn) in *.
  assert (Hmean : colwise_mean cl = vec3 (c0 p) (c1 p) (c2 p)).
  { unfold colwise_mean.
    rewrite (colwise_sum_constant c0 (c0 p)), (colwise_sum_constant c1 (c1 p)),
      (colwise_sum_constant c2 (c2 p))
      by (intros r Hr; now apply Hrows).
    f_equal; field; exact Hlen. }
  rewrite Hmean.
  rewrite (colwise_sum_constant _ 0).
  - unfold Rdiv. ring.
  - intros r Hr. unfold rowwise_sub in Hr. apply in_map_iff in Hr.
    destruct Hr as (r' & <- & Hr'). destruct (Hrows r' Hr') as (E0 & E1 & E2).
    unfold at3. cbn [c0 c1 c2]. rewrite E0, E1, E2.
    destruct (a =? 0)%Z, (a =? 1)%Z, (b =? 0)%Z, (b =? 1)%Z; ring.
Qed.

(** X18: when the neighbours of a neighbourhood of at least one point
    all lie at the same position (in particular when there is a single
    neighbour), the covariance is the zero matrix. *)
Theorem coincident_neighbours_zero_covariance
  (xyz : Z -> float) (nn nn_ptr : Z -> Z) (i_point k_nn : Z)
  (p : Vector3f) :
  (1 <= k_nn)%Z ->
  (forall i_nei, (0 <= i_nei < k_nn)%Z ->
     let idx_nei := nn (nn_ptr i_point + i_nei)%Z in
     xyz (3 * idx_nei)%Z = c0 p /\ xyz (3 * idx_nei + 1)%Z = c1 p /\
     xyz (3 * idx_nei + 2)%Z = c2 p) ->
  forall a b, cov xyz nn nn_ptr i_point k_nn a b = 0.
Proof.
  intros Hk Hsame a b.
  exact (cov_of_coincident xyz nn nn_ptr i_point k_nn p Hk Hsame a b).
Qed.

(** * More on the features *)

Lemma search_fold_incumbent
  (eigen_solve : Matrix3f -> EigenSolver)
  (k_step : Z) (st : State) (i_point k0 k_nn : Z) (l : list Z) :
  forall s pca k,
    (forall pca' k',
        incumbent s = Some (pca', k') ->
        pca' = neighborhood_pca eigen_solve (xyz st) (nn st) (nn_ptr st)
                 i_point k') ->
    incumbent (fold_left (search_body eigen_solve k_step st i_point k0 k_nn)
                 l s) = Some (pca, k) ->
    pca = neighborhood_pca eigen_solve (xyz st) (nn st) (nn_ptr st) i_point k.
Proof.
  induction l as [|x l IH]; intros s pca k Hs H; cbn [fold_left] in H.
  - now apply Hs.
  - apply (IH _ pca k) in H; [exact H|].
    intros pca' k'. unfold search_body.
    destruct (skipped k_step k0 k_nn x); [apply Hs|].
    cbn [incumbent]. destruct (improves _ _ _ _).
    + now intros [= <- <-].
    + apply Hs.
Qed.

(** The retained result is the result of [neighborhood_pca] at the
    retained size. *)
Lemma search_incumbent_is_pca
  (eigen_solve : Matrix3f -> EigenSolver)
  (k_min k_step k_min_search : Z) (st : State) (i_point k_nn : Z)
  (pca : PCAOutput) (k : Z) :
  incumbent (search eigen_solve k_min k_step k_min_search st i_point k_nn)
  = Some (pca, k) ->
  pca = neighborhood_pca eigen_solve (xyz st) (nn st) (nn_ptr st) i_point k.
Proof.
  unfold search. destruct (k_step <? 1)%Z.
  - cbn [incumbent]. now intros [= <- <-].
  - apply search_fold_incumbent. cbn [incumbent]. discriminate.
Qed.

Lemma neighborhood_pca_val_ordered
  (eigen_solve : Matrix3f -> EigenSolver)
  (xyz : Z -> float) (nn nn_ptr : Z -> Z) (i_point k_nn : Z) :
  let out := neighborhood_pca eigen_solve xyz nn nn_ptr i_point k_nn in
  c1 (val out) <= c0 (val out) /\ c2 (val out) <= c1 (val out) /\
  0 <= c2 (val out) /\ 0 <= c2 (v2 out).
Proof.
  intros out.
  destruct (neighborhood_pca_spec eigen_solve xyz nn nn_ptr i_point k_nn)
    as (i0 & i1 & i2 & _ & _ & [H10 H21] & Hval & _ & _ & Hv2 & _).
  fold out in Hval, Hv2. rewrite Hval, Hv2. cbn [c0 c1 c2].
  split; [now apply std_max_mono|]. split; [now apply std_max_mono|].
  split; [apply std_max_clamp|apply orient_upward].
Qed.

(** The retained result of a point that is not zero-filled, with what is
    known of it. *)
Lemma point_body_retained
  (eigen_solve : Matrix3f -> EigenSolver)
  (k_min k_step k_min_search n_points : Z) (verbose : bool)
  (i_point : Z) (st st' : State) :
  degenerate k_min (neighbor_count st i_point) = false ->
  point_body eigen_solve k_min k_step k_min_search n_points verbose
    i_point st = Some st' ->
  exists pca k_optimal,
    incumbent (search eigen_solve k_min k_step k_min_search st i_point
                 (neighbor_count st i_point)) = Some (pca, k_optimal) /\
    (c1 (val pca) <= c0 (val pca) /\ c2 (val pca) <= c1 (val pca) /\
     0 <= c2 (val pca) /\ 0 <= c2 (v2 pca)) /\
    forall n, (n < 11)%nat ->
              features st' (i_point * 11 + Z.of_nat n)%Z =
              nth n (geometric_features pca) 0.
Proof.
  intros Hd H.
  destruct (point_body_features _ _ _ _ _ _ _ _ _ Hd H)
    as (pca & k & Hinc & Hf).
  exists pca, k. split; [exact Hinc|]. split; [|exact Hf].
  rewrite (search_incumbent_is_pca _ _ _ _ _ _ _ _ _ Hinc).
  apply neighborhood_pca_val_ordered.
Qed.

Lemma sqrt_millionth : sqrt 1e-6 = 1e-3.
Proof. apply sqrt_lem_1; lra. Qed.

Lemma cube_root_billionth : Rpower 1e-9 (1 / 3) = 1e-3.
Proof.
  replace 1e-9 with (Rpower 1e-3 (INR 3)).
  - rewrite Rpower_mult. replace (INR 3 * (1 / 3)) with 1 by (cbn; lra).
    apply Rpower_1. lra.
  - rewrite Rpower_pow by lra. lra.
Qed.

Section FeatureFacts.
Variable pca : PCAOutput.
Hypothesis val_10 : c1 (val pca) <= c0 (val pca).
Hypothesis val_21 : c2 (val pca) <= c1 (val pca).
Hypothesis val_2 : 0 <= c2 (val pca).

Local Abbreviation a0 := (sqrt (c0 (val pca))).
Local Abbreviation a1 := (sqrt (c1 (val pca))).
Local Abbreviation a2 := (sqrt (c2 (val pca))).

Lemma roots_ordered : 0 <= a2 /\ a2 <= a1 /\ a1 <= a0.
Proof.
  split; [apply sqrt_pos|]. split; now apply sqrt_le_1_alt.
Qed.




Lemma surface_positive : 0 < nth 8 (geometric_features pca) 0.
Proof.
  destruct roots_ordered as (H2 & H21 & H10).
  unfold geometric_features. cbn [nth].
  apply sqrt_lt_R0. nra.
Qed.

Lemma zero_eigenvalues_features :
  c0 (val pca) = 0 ->
  geometric_features pca
  = [0; 0; 0; 0; c0 (v2 pca); c1 (v2 pca); c2 (v2 pca); 0; 1e-3; 1e-3; 0].
Proof.
  intros E0.
  assert (E1 : c1 (val pca) = 0) by lra.
  assert (E2 : c2 (val pca) = 0) by lra.
  unfold geometric_features, verticality_of.
  rewrite E0, E1, E2, sqrt_0.
  replace (fltb 0 0) with false
    by (symmetry; apply fltb_false; lra).
  replace (0 * 0 + 1e-6) with 1e-6 by ring.
  replace (0 * 0 * 0 + 1e-9) with 1e-9 by ring.
  rewrite sqrt_millionth, cube_root_billionth.
  repeat f_equal; unfold Rdiv; ring.
Qed.
End FeatureFacts.



(** X21: the slice of a point is all zeros exactly when the point was
    zero-filled: a point that is not zero-filled has a positive
    surface. *)
Theorem zero_slice_iff_zero_filled
  (eigen_solve : Matrix3f -> EigenSolver)
  (k_min k_step k_min_search n_points : Z) (verbose : bool)
  (i_point : Z) (st st' : State) :
  point_body eigen_solve k_min k_step k_min_search n_points verbose
    i_point st = Some st' ->
  ((forall j, (0 <= j < 11)%Z -> features st' (i_point * 11 + j)%Z = 0) <->
   degenerate k_min (neighbor_count st i_point) = true).
Proof.
  intros H. split.
  - intros Hzero.
    destruct (degenerate k_min (neighbor_count st i_point)) eqn:Hd;
      [reflexivity|].
    destruct (point_body_retained _ _ _ _ _ _ _ _ _ Hd H)
      as (pca & k & _ & (H10 & H21 & H2 & _) & Hf).
    pose proof (Hf 8%nat ltac:(lia)) as F8.
    cbn [Z.of_nat Pos.of_succ_nat Pos.succ] in F8.
    rewrite (Hzero 8%Z) in F8 by lia.
    assert (Hs : 0 < nth 8 (geometric_features pca) 0)
      by (apply surface_positive; assumption).
    lra.
  - intros Hd j Hj.
    rewrite (point_body_degenerate _ _ _ _ _ _ _ _ Hd) in H.
    injection H as <-. now apply zero_fill_slice.
Qed.

(** X22: when the largest eigenvalue of the retained result is zero (all
    the neighbours coincide), the slice of the point is
    [0, 0, 0, 0, v2, 0, 0.001, 0.001, 0]: the stabilisers alone remain in
    surface and volume. *)
Theorem fully_degenerate_point_features
  (eigen_solve : Matrix3f -> EigenSolver)
  (k_min k_step k_min_search n_points : Z) (verbose : bool)
  (i_point : Z) (st st' : State) (pca : PCAOutput) (k_optimal : Z) :
  degenerate k_min (neighbor_count st i_point) = false ->
  point_body eigen_solve k_min k_step k_min_search n_points verbose
    i_point st = Some st' ->
  incumbent (search eigen_solve k_min k_step k_min_search st i_point
               (neighbor_count st i_point)) = Some (pca, k_optimal) ->
  c0 (val pca) = 0 ->
  forall n, (n < 11)%nat ->
    features st' (i_point * 11 + Z.of_nat n)%Z =
    nth n [0; 0; 0; 0; c0 (v2 pca); c1 (v2 pca); c2 (v2 pca);
           0; 1e-3; 1e-3; 0] 0.
Proof.
  intros Hd H Hinc E0 n Hn.
  destruct (point_body_retained _ _ _ _ _ _ _ _ _ Hd H)
    as (pca' & k' & Hinc' & (H10 & H21 & H2 & _) & Hf).
  rewrite Hinc in Hinc'. injection Hinc' as <- <-.
  rewrite (Hf n Hn), (zero_eigenvalues_features pca) by assumption.
  reflexivity.
Qed.

(** * Instances on the concrete clouds *)

Open Scope Z_scope.

Lemma line_neighbor_count (k_nn i_point : Z) :
  0 <= k_nn < 2 ^ 32 -> neighbor_count (line_state k_nn) i_point = k_nn.
Proof.
  intros H. unfold neighbor_count, line_state. cbn [nn_ptr].
  replace (k_nn * (i_point + 1) - k_nn * i_point) with k_nn by ring.
  unfold to_uint32. rewrite Z.mod_small by lia.
  apply to_size_t_small. lia.
Qed.

Lemma int_range_small (z : Z) : -100 <= z <= 100 -> int_range z.
Proof. unfold int_range. lia. Qed.

Lemma line_run (k_min k_step k_min_search : Z) (verbose : bool) :
  -100 <= k_min <= 100 -> -100 <= k_min_search <= 100 ->
  exists st',
    compute_geometric_features diag_solver k_min k_step k_min_search 2
      verbose (line_state 2) = Some st'.
Proof.
  intros Hm Hs. apply run_compute. intros i _.
  apply point_values_total; try now apply int_range_small.
  rewrite line_neighbor_count; lia.
Qed.

Lemma run_defined_for_bounded_neighbourhoods_witness :
  exists st',
    compute_geometric_features diag_solver 1 1 0 2 true (line_state 2)
    = Some st'.
Proof.
  apply (run_defined_for_bounded_neighbourhoods diag_solver 1 1 0 2 true
           (line_state 2)).
  - apply int_range_small; lia.
  - apply int_range_small; lia.
  - lia.
  - intros i _. rewrite line_neighbor_count; lia.
Defined.

Lemma final_slice_is_point_computation_witness :
  exists st' s_0,
    compute_geometric_features diag_solver 1 1 0 2 true (line_state 2)
    = Some st' /\
    point_body diag_solver 1 1 0 2 true 0 (line_state 2) = Some s_0 /\
    forall j, 0 <= j < 11 ->
              features st' (0 * 11 + j) = features s_0 (0 * 11 + j).
Proof.
  destruct (line_run 1 1 0 true ltac:(lia) ltac:(lia)) as (st' & H).
  destruct (final_slice_is_point_computation diag_solver 1 1 0 2 true
              (line_state 2) st' ltac:(lia) H 0 ltac:(lia))
    as (s_0 & Hb & Hf).
  exists st', s_0. auto.
Defined.

Lemma run_frame_witness :
  exists st',
    compute_geometric_features diag_solver 1 1 0 2 true (line_state 2)
    = Some st' /\
    xyz st' = xyz (line_state 2) /\
    forall a, ~ 0 <= a < 11 * 2 ->
              features st' a = features (line_state 2) a.
Proof.
  destruct (line_run 1 1 0 true ltac:(lia) ltac:(lia)) as (st' & H).
  destruct (run_frame diag_solver 1 1 0 2 true (line_state 2) st'
              ltac:(lia) H) as (Hx & _ & _ & Hf).
  exists st'. auto.
Defined.

Lemma order_of_points_immaterial_witness :
  exists s s',
    run_points diag_solver 1 0 0 2 false [0; 1] (line_state 2) = Some s /\
    run_points diag_solver 1 0 0 2 false [1; 0] (line_state 2) = Some s' /\
    forall a, features s' a = features s a.
Proof.
  eexists.
  destruct (order_of_points_immaterial diag_solver 1 0 0 2 false
              [0; 1] [1; 0] (line_state 2) _
              ltac:(cbn; intros i; tauto) eq_refl)
    as (s' & Hrun & Hf).
  exists s'. split; [reflexivity|]. split; assumption.
Defined.

Lemma second_run_same_features_witness :
  exists st' st'',
    compute_geometric_features diag_solver 1 1 0 2 true (line_state 2)
    = Some st' /\
    compute_geometric_features diag_solver 1 1 0 2 true st' = Some st'' /\
    forall a, features st'' a = features st' a.
Proof.
  destruct (line_run 1 1 0 true ltac:(lia) ltac:(lia)) as (st' & H).
  destruct (second_run_same_features diag_solver 1 1 0 2 true
              (line_state 2) st' H) as (st'' & H2 & Hf).
  exists st', st''. auto.
Defined.

Lemma verbose_only_prints_witness :
  exists s s',
    compute_geometric_features diag_solver 1 1 0 2 true (line_state 2)
    = Some s /\
    compute_geometric_features diag_solver 1 1 0 2 false (line_state 2)
    = Some s' /\
    (forall a, features s' a = features s a) /\
    cout s' = cout (line_state 2).
Proof.
  destruct (line_run 1 1 0 true ltac:(lia) ltac:(lia)) as (s & H).
  destruct (verbose_only_prints diag_solver 1 1 0 2 (line_state 2) s H)
    as (s' & H2 & Hf & Hc).
  exists s, s'. auto.
Defined.

Lemma progress_counts_computed_points_witness :
  exists st',
    compute_geometric_features diag_solver 1 1 0 2 true (line_state 2)
    = Some st' /\
    s_point st' = 2.
Proof.
  destruct (line_run 1 1 0 true ltac:(lia) ltac:(lia)) as (st' & H).
  exists st'. split; [exact H|].
  rewrite (progress_counts_computed_points diag_solver 1 1 0 2 true
             (line_state 2) st' ltac:(lia) H).
  reflexivity.
Defined.

Lemma no_progress_line_below_10000_witness :
  exists st',
    compute_geometric_features diag_solver 1 1 0 2 true (line_state 2)
    = Some st' /\
    cout st' = [Endl].
Proof.
  destruct (line_run 1 1 0 true ltac:(lia) ltac:(lia)) as (st' & H).
  exists st'. split; [exact H|].
  exact (no_progress_line_below_10000 diag_solver 1 1 0 2 true
           (line_state 2) st' ltac:(lia) H).
Defined.

Lemma search_disabled_full_neighbourhood_witness :
  (0 < 1 /\ degenerate 1 (neighbor_count (line_state 2) 0) = false) /\
  exists st',
    point_body diag_solver 1 0 7 2 false 0 (line_state 2) = Some st' /\
    pca_calls st' = pca_calls (line_state 2) ++ [(0, 2)].
Proof.
  split; [split; [lia|reflexivity]|].
  destruct (search_disabled_full_neighbourhood diag_solver 1 0 7 2 false 0
              (line_state 2) ltac:(lia) eq_refl) as (st' & Hb & Hc & _).
  exists st'. split; [exact Hb|exact Hc].
Defined.

Lemma stride_one_is_exhaustive_witness :
  (int_range 5 /\ int_range 0 /\ 1 <= Z.max 5 0 /\ 0 <= 10 < 2 ^ 31) /\
  degenerate 5 10 = false /\
  evaluated (search diag_solver 5 1 0 (line_state 10) 0 10)
  = [5; 6; 7; 8; 9; 10].
Proof.
  assert (H5 : int_range 5) by (apply int_range_small; lia).
  assert (H0 : int_range 0) by (apply int_range_small; lia).
  assert (Hf : 1 <= Z.max 5 0) by lia.
  assert (Hk : 0 <= 10 < 2 ^ 31) by lia.
  assert (Hd : degenerate 5 10 = false) by reflexivity.
  split; [auto|]. split; [exact Hd|].
  destruct (stride_one_is_exhaustive diag_solver 5 0 (line_state 10) 0 10
              H5 H0 Hf Hk Hd) as [Hev _].
  rewrite Hev. reflexivity.
Defined.

Lemma floor_at_neighbour_count_disables_search_witness :
  (int_range 1 /\ int_range 10 /\ 1 <= 3) /\
  (neighbor_count (line_state 2) 0 < 2 ^ 31 /\
   degenerate 1 (neighbor_count (line_state 2) 0) = false /\
   neighbor_count (line_state 2) 0 <= Z.max 1 10) /\
  point_body diag_solver 1 3 10 2 false 0 (line_state 2)
  = point_body diag_solver 1 0 10 2 false 0 (line_state 2).
Proof.
  assert (H1 : int_range 1) by (apply int_range_small; lia).
  assert (H10 : int_range 10) by (apply int_range_small; lia).
  assert (Hs : 1 <= 3) by lia.
  assert (Hk : neighbor_count (line_state 2) 0 < 2 ^ 31) by reflexivity.
  assert (Hd : degenerate 1 (neighbor_count (line_state 2) 0) = false)
    by reflexivity.
  assert (Hf : neighbor_count (line_state 2) 0 <= Z.max 1 10)
    by (rewrite line_neighbor_count; lia).
  split; [auto|]. split; [auto|].
  exact (floor_at_neighbour_count_disables_search diag_solver 1 3 10 2 false
           0 (line_state 2) H1 H10 Hs Hk Hd Hf).
Defined.

Lemma search_not_worse_than_boundaries_witness :
  (int_range 5 /\ int_range 0 /\ int_range 3 /\ 1 <= 3) /\
  (1 <= Z.max 5 0 /\ 0 <= 10 < 2 ^ 31 /\ degenerate 5 10 = false) /\
  let pca_at := neighborhood_pca diag_solver (xyz (line_state 10))
                  (nn (line_state 10)) (nn_ptr (line_state 10)) 0 in
  exists pca k_optimal,
    incumbent (search diag_solver 5 3 0 (line_state 10) 0 10)
    = Some (pca, k_optimal) /\
    (eigenentropy pca <= eigenentropy (pca_at 10%Z))%R /\
    (eigenentropy pca <= eigenentropy (pca_at 5%Z))%R.
Proof.
  assert (H5 : int_range 5) by (apply int_range_small; lia).
  assert (H0 : int_range 0) by (apply int_range_small; lia).
  assert (H3 : int_range 3) by (apply int_range_small; lia).
  assert (Hs : 1 <= 3) by lia.
  assert (Hf : 1 <= Z.max 5 0) by lia.
  assert (Hk : 0 <= 10 < 2 ^ 31) by lia.
  assert (Hd : degenerate 5 10 = false) by reflexivity.
  split; [auto|]. split; [auto|].
  exact (search_not_worse_than_boundaries diag_solver 5 3 0 (line_state 10)
           0 10 H5 H0 H3 Hs Hf Hk Hd).
Defined.

Lemma evaluated_sizes_within_neighbourhood_witness :
  (int_range 5 /\ int_range 0 /\ int_range 3) /\
  (neighbor_count (line_state 10) 0 < 2 ^ 31 /\
   degenerate 5 (neighbor_count (line_state 10) 0) = false /\
   (3 < 1 \/ 1 <= Z.max 5 0)) /\
  exists st' sizes,
    point_body diag_solver 5 3 0 1 false 0 (line_state 10) = Some st' /\
    pca_calls st' = pca_calls (line_state 10) ++ map (pair 0) sizes /\
    forall k, In k sizes -> 1 <= k <= neighbor_count (line_state 10) 0.
Proof.
  assert (H5 : int_range 5) by (apply int_range_small; lia).
  assert (H0 : int_range 0) by (apply int_range_small; lia).
  assert (H3 : int_range 3) by (apply int_range_small; lia).
  assert (Hk : neighbor_count (line_state 10) 0 < 2 ^ 31) by reflexivity.
  assert (Hd : degenerate 5 (neighbor_count (line_state 10) 0) = false)
    by reflexivity.
  assert (Hc : 3 < 1 \/ 1 <= Z.max 5 0) by (right; lia).
  split; [auto|]. split; [auto|].
  exact (evaluated_sizes_within_neighbourhood diag_solver 5 3 0 1 false 0
           (line_state 10) H5 H0 H3 Hk Hd Hc).
Defined.


Lemma empty_neighbourhood_evaluated_witness :
  (int_range 0 /\ 1 <= 1) /\
  (neighbor_count (line_state 2) 0 < 2 ^ 31 /\
   degenerate 0 (neighbor_count (line_state 2) 0) = false /\
   Z.max 0 0 <= 0) /\
  exists st' sizes,
    point_body diag_solver 0 1 0 2 false 0 (line_state 2) = Some st' /\
    pca_calls st' = pca_calls (line_state 2) ++ (0, 0) :: map (pair 0) sizes.
Proof.
  assert (H0 : int_range 0) by (apply int_range_small; lia).
  assert (Hs : 1 <= 1) by lia.
  assert (Hk : neighbor_count (line_state 2) 0 < 2 ^ 31) by reflexivity.
  assert (Hd : degenerate 0 (neighbor_count (line_state 2) 0) = false)
    by reflexivity.
  assert (Hf : Z.max 0 0 <= 0) by lia.
  split; [auto|]. split; [auto|].
  exact (empty_neighbourhood_evaluated diag_solver 0 1 0 2 false 0
           (line_state 2) H0 H0 Hs Hk Hd Hf).
Defined.

Lemma number_of_evaluations_witness :
  (int_range 5 /\ int_range 0 /\ int_range 3 /\ 1 <= 3) /\
  (neighbor_count (line_state 10) 0 < 2 ^ 31 /\
   degenerate 5 (neighbor_count (line_state 10) 0) = false) /\
  exists st' sizes,
    point_body diag_solver 5 3 0 1 false 0 (line_state 10) = Some st' /\
    pca_calls st' = pca_calls (line_state 10) ++ map (pair 0) sizes /\
    Z.of_nat (length sizes) = 4.
Proof.
  assert (H5 : int_range 5) by (apply int_range_small; lia).
  assert (H0 : int_range 0) by (apply int_range_small; lia).
  assert (H3 : int_range 3) by (apply int_range_small; lia).
  assert (Hs : 1 <= 3) by lia.
  assert (Hk : neighbor_count (line_state 10) 0 < 2 ^ 31) by reflexivity.
  assert (Hd : degenerate 5 (neighbor_count (line_state 10) 0) = false)
    by reflexivity.
  split; [auto|]. split; [auto|].
  exact (number_of_evaluations diag_solver 5 3 0 1 false 0 (line_state 10)
           H5 H0 H3 Hs Hk Hd).
Defined.

Lemma covariance_symmetric_positive_witness :
  1 <= 2 /\
  forall w, (0 <= quadratic_form
                    (cov (xyz (line_state 2)) (nn (line_state 2))
                       (nn_ptr (line_state 2)) 0 2) w)%R.
Proof.
  assert (H : 1 <= 2) by lia. split; [exact H|].
  exact (proj2 (covariance_symmetric_positive (xyz (line_state 2))
                  (nn (line_state 2)) (nn_ptr (line_state 2)) 0 2 H)).
Defined.

Lemma line_single_neighbour (i_nei : Z) :
  0 <= i_nei < 1 ->
  let idx_nei := nn (line_state 1) (nn_ptr (line_state 1) 0 + i_nei) in
  xyz (line_state 1) (3 * idx_nei) = 30%R /\
  xyz (line_state 1) (3 * idx_nei + 1) = 0%R /\
  xyz (line_state 1) (3 * idx_nei + 2) = 0%R.
Proof.
  intros H. assert (i_nei = 0) as -> by lia. repeat split.
Qed.

Lemma coincident_neighbours_zero_covariance_witness :
  1 <= 1 /\
  forall a b, cov (xyz (line_state 1)) (nn (line_state 1))
                (nn_ptr (line_state 1)) 0 1 a b = 0%R.
Proof.
  assert (H : 1 <= 1) by lia. split; [exact H|].
  exact (coincident_neighbours_zero_covariance (xyz (line_state 1))
           (nn (line_state 1)) (nn_ptr (line_state 1)) 0 1 (vec3 30 0 0)
           H line_single_neighbour).
Defined.




Lemma zero_slice_iff_zero_filled_witness :
  exists st',
    point_body diag_solver 3 0 0 2 false 0 (line_state 2) = Some st' /\
    degenerate 3 (neighbor_count (line_state 2) 0) = true /\
    forall j, 0 <= j < 11 -> features st' (0 * 11 + j) = 0%R.
Proof.
  eexists. split; [reflexivity|]. split; [reflexivity|].
  apply (zero_slice_iff_zero_filled diag_solver 3 0 0 2 false 0
           (line_state 2) _ eq_refl). reflexivity.
Defined.

Lemma line_single_val :
  c0 (val (neighborhood_pca diag_solver (xyz (line_state 1))
             (nn (line_state 1)) (nn_ptr (line_state 1)) 0 1)) = 0%R.
Proof.
  pose proof (cov_of_coincident (xyz (line_state 1)) (nn (line_state 1))
                (nn_ptr (line_state 1)) 0 1 (vec3 30 0 0) ltac:(lia)
                line_single_neighbour) as Hc.
  rewrite (diag_solver_val _ _ _ 0 1 0 0 0)%R; try apply Hc; try lra.
  reflexivity.
Qed.

Lemma fully_degenerate_point_features_witness :
  degenerate 1 (neighbor_count (line_state 1) 0) = false /\
  exists st',
    point_body diag_solver 1 0 0 2 false 0 (line_state 1) = Some st' /\
    features st' (0 * 11 + Z.of_nat 8) = 1e-3%R /\
    features st' (0 * 11 + Z.of_nat 0) = 0%R.
Proof.
  split; [reflexivity|]. eexists. split; [reflexivity|].
  pose proof (fully_degenerate_point_features diag_solver 1 0 0 2 false 0
                (line_state 1) _ _ _ eq_refl eq_refl eq_refl line_single_val)
    as H.
  split; [exact (H 8%nat ltac:(lia))|exact (H 0%nat ltac:(lia))].
Defined.

(** * Orientation and offsets *)

(** X23: the orientation step removes the sign ambiguity of an
    eigenvector whose third coordinate is not zero: [v] and [-v] are sent
    to the same vector.  With a zero third coordinate the vector is kept
    as the solver gave it, so the ambiguity stays. *)
Theorem orient_removes_sign
  (v : Vector3f) :
  let neg := vec3 (- c0 v) (- c1 v) (- c2 v) in
  (c2 v <> 0%R -> orient neg = orient v) /\
  (c2 v = 0%R -> orient v = v /\ orient neg = neg).
Proof.
  intros neg. split.
  - intros Hz. destruct (Rlt_dec (c2 v) 0) as [Hlt|Hge].
    + rewrite (orient_negative v Hlt).
      apply orient_nonnegative. subst neg. cbn [c2]. lra.
    + rewrite (orient_nonnegative v Hge).
      rewrite orient_negative by (subst neg; cbn [c2]; lra).
      subst neg. cbn [c0 c1 c2]. destruct v as [x y z]. cbn [c0 c1 c2].
      f_equal; ring.
  - intros Hz. split; apply orient_nonnegative; subst neg; cbn [c2]; lra.
Qed.

(** X24: with offsets in the 32-bit unsigned range, the neighbour count
    is the difference of consecutive offsets when they do not decrease;
    when they decrease it wraps to [2^32 + nn_ptr[i+1] - nn_ptr[i]], a
    positive count: decreasing offsets are never seen as an empty
    neighbourhood. *)
Theorem neighbor_count_of_offsets (st : State) (i_point : Z) :
  0 <= nn_ptr st i_point < 2 ^ 32 ->
  0 <= nn_ptr st (i_point + 1) < 2 ^ 32 ->
  neighbor_count st i_point =
    if nn_ptr st i_point <=? nn_ptr st (i_point + 1)
    then nn_ptr st (i_point + 1) - nn_ptr st i_point
    else 2 ^ 32 + nn_ptr st (i_point + 1) - nn_ptr st i_point.
Proof.
  intros H0 H1. unfold neighbor_count, to_uint32.
  destruct (Z.leb_spec (nn_ptr st i_point) (nn_ptr st (i_point + 1))).
  - rewrite Z.mod_small by lia. apply to_size_t_small. lia.
  - rewrite <- (Z.mod_unique_pos
                  (nn_ptr st (i_point + 1) - nn_ptr st i_point) (2 ^ 32) (-1)
                  (2 ^ 32 + nn_ptr st (i_point + 1) - nn_ptr st i_point))
      by lia.
    apply to_size_t_small. lia.
Qed.

Lemma orient_removes_sign_witness :
  (1 <> 0)%R /\ orient (vec3 (- 0) (- 0) (- 1)) = orient (vec3 0 0 1).
Proof.
  assert (H : (1 <> 0)%R) by lra. split; [exact H|].
  exact (proj1 (orient_removes_sign (vec3 0 0 1)) H).
Defined.

Lemma neighbor_count_of_offsets_witness :
  (0 <= nn_ptr (line_state 2) 0 < 2 ^ 32 /\
   0 <= nn_ptr (line_state 2) (0 + 1) < 2 ^ 32) /\
  neighbor_count (line_state 2) 0 = 2.
Proof.
  assert (H0 : 0 <= nn_ptr (line_state 2) 0 < 2 ^ 32) by (cbn; lia).
  assert (H1 : 0 <= nn_ptr (line_state 2) (0 + 1) < 2 ^ 32) by (cbn; lia).
  split; [auto|].
  rewrite (neighbor_count_of_offsets (line_state 2) 0 H0 H1). reflexivity.
Defined.
